(** * demo_nonholo: vehicle models, control kernel and tracking loop

    A shallow embedding of [demo_nonholo.py] and the properties of its
    dynamics models, policies, error metric, feasibility predicate,
    sampling heuristic and closed-loop simulator.

    Conventions of the embedding:
    - numpy's float64 numbers are idealised as real numbers ([R]);
    - a one-dimensional ndarray (or Python list of numbers) is a [list R],
      a two-dimensional one is a list of rows;
    - an index that Python would reject (IndexError) or a pair of shapes that
      numpy cannot combine is outside the domain: the statements carry the
      shape of their arguments as hypotheses;
    - Model B's [dynamics] assigns to the items of an array it is given, so
      its arguments are arrays in a store and the assignments are visible to
      the caller; the other functions assign only to arrays they create
      themselves, and are functions from values to values;
    - what the program reads from the planner library or draws at random
      (the plan, the obstacle field, the random numbers) is an argument. *)

From Stdlib Require Import Reals Lra Lia List Bool Arith ZArith.
Import ListNotations.

Open Scope R_scope.

(** ** The fragment of numpy that the program uses *)

Module Np.

Definition vec := list R.
Definition matrix := list vec.

Definition Rltb (a b : R) : bool := if Rlt_dec a b then true else false.
Definition Rleb (a b : R) : bool := if Rle_dec a b then true else false.

(** [v[i]] *)
Definition item (v : vec) (i : nat) : R := nth i v 0.

(** [v[i] = a], on a copy; also [M[i, :] = r] for a matrix *)
Fixpoint set_nth {A : Type} (l : list A) (i : nat) (a : A) : list A :=
  match l, i with
  | [], _ => []
  | _ :: t, O => a :: t
  | h :: t, S j => h :: set_nth t j a
  end.
Definition set_item (v : vec) (i : nat) (a : R) : vec := set_nth v i a.

Fixpoint zip_with {A B C : Type} (f : A -> B -> C) (a : list A) (b : list B)
  : list C :=
  match a, b with
  | x :: a', y :: b' => f x y :: zip_with f a' b'
  | _, _ => []
  end.

Definition add : vec -> vec -> vec := zip_with Rplus.
Definition subtract : vec -> vec -> vec := zip_with Rminus.
Definition multiply : vec -> vec -> vec := zip_with Rmult.
Definition divide : vec -> vec -> vec := zip_with Rdiv.
(** [v * k] and [k * v] for a number [k] *)
Definition scale (v : vec) (k : R) : vec := map (fun a => a * k) v.
Definition times (k : R) (v : vec) : vec := map (fun a => k * a) v.
Definition zeros (n : nat) : vec := repeat 0 n.
Definition abs (v : vec) : vec := map Rabs v.

(** [np.clip(a, lo, hi)] is [minimum(maximum(a, lo), hi)] *)
Definition clip1 (a lo hi : R) : R := Rmin (Rmax a lo) hi.
Definition clip (v lo hi : vec) : vec :=
  zip_with (fun a b => Rmin a b) (zip_with Rmax v lo) hi.

Definition sign (a : R) : R :=
  if Rltb a 0 then -1 else if Rltb 0 a then 1 else 0.

Definition greater (v : vec) (r : R) : list bool := map (fun a => Rltb r a) v.

Definition any (bs : list bool) : bool := existsb (fun b => b) bs.

Definition enumerate {A : Type} (l : list A) : list (nat * A) :=
  combine (seq 0 (length l)) l.

(** [np.arctan2(y, x)] *)
Definition arctan2 (y x : R) : R :=
  if Rltb 0 x then atan (y / x)
  else if Rltb x 0 then
         (if Rltb y 0 then atan (y / x) - PI else atan (y / x) + PI)
  else if Rltb 0 y then PI / 2
  else if Rltb y 0 then - (PI / 2)
  else 0.

Definition deg2rad (d : R) : R := d * (PI / 180).

(** Matrices, as lists of rows *)
Definition inner (a b : vec) : R := fold_right Rplus 0 (multiply a b).

Definition column (M : matrix) (j : nat) : vec := map (fun r => item r j) M.

Definition ncols (M : matrix) : nat :=
  match M with [] => O | r :: _ => length r end.

Definition transpose (M : matrix) : matrix :=
  map (column M) (seq 0 (ncols M)).

(** [A.dot(B)] for two matrices, [A.dot(v)] for a matrix and a vector *)
Definition dot (A B : matrix) : matrix :=
  map (fun r => map (inner r) (transpose B)) A.
Definition dotv (A : matrix) (v : vec) : vec := map (fun r => inner r v) A.

Definition hstack (A B : matrix) : matrix := zip_with (@app R) A B.
Definition vstack (A B : matrix) : matrix := A ++ B.

Definition diag (d : vec) : matrix :=
  map (fun i => map (fun j => if Nat.eqb i j then item d i else 0)
                    (seq 0 (length d)))
      (seq 0 (length d)).

(** [npl.norm(M - c, axis=1)] *)
Definition norm (v : vec) : R := sqrt (fold_right Rplus 0 (map (fun a => a * a) v)).
Definition norm_rows (M : matrix) : vec := map norm M.
Definition sub_rows (M : matrix) (c : vec) : matrix :=
  map (fun r => subtract r c) M.

(** [np.arange(start, stop, step)], with its number of points *)
Definition arange (start step : R) (n : nat) : vec :=
  map (fun k => start + INR k * step) (seq 0 n).

(** index of the first minimum *)
Fixpoint argmin_from (best : R) (ibest i : nat) (v : vec) : nat :=
  match v with
  | [] => ibest
  | a :: t => if Rltb a best then argmin_from a i (S i) t
              else argmin_from best ibest (S i) t
  end.
Definition argmin (v : vec) : nat :=
  match v with
  | [] => O
  | a :: t => argmin_from a O 1%nat t
  end.

End Np.

Import Np.

Notation "v @[ i ]" := (item v i) (at level 1, format "v @[ i ]").

(** ** Model A: the constrained model the planner searches with *)

Module ModelA.

(** Experimentally determined mass and inertia *)
Definition m : R := 500.
Definition I : R := 500.
Definition invM : vec := [1 / m; 1 / I].

(** Top speeds of the boat, axis aligned *)
Definition vel_max : vec := [1.1; 0.2].

(** Conservatively estimated maximum wrench *)
Definition thrust_max : R := 220.
Definition thrust_lever : R := 2.15.
Definition u_max : vec :=
  [2 * sqrt 2 * thrust_max; 4 * thrust_lever * thrust_max].

(** Effective linear drag coefficients *)
Definition D : vec := abs (divide u_max vel_max).

Definition nstates : nat := 5.
Definition ncontrols : nat := 2.

Definition dynamics (x u : vec) (dt : R) : vec :=
  let vwx := cos x@[2] * x@[3] in
  let vwy := sin x@[2] * x@[3] in
  let u := clip u [- u_max@[0] / 10; - u_max@[1]] u_max in
  let xdot := [vwx; vwy; x@[4]]
              ++ multiply invM (subtract u (multiply D (skipn 3 x))) in
  let xnext := add x (scale xdot dt) in
  if Rltb xnext@[3] 0 then set_item xnext 3 0 else xnext.

(** Vehicle dimensions and resolution *)
Definition boat_length : R := 6.
Definition boat_width : R := 3.
Definition boat_buffer : R := 2.
Definition vps_spacing : R := 1.

(** Vehicle points: the two axes of [np.mgrid], which have 9 and 6 points *)
Definition vps_axis_x : vec :=
  arange (- (boat_length + boat_buffer) / 2) vps_spacing 9.
Definition vps_axis_y : vec :=
  arange (- (boat_width + boat_buffer) / 2) vps_spacing 6.
Definition vps_grid_x : vec :=
  flat_map (fun a => map (fun _ => a) vps_axis_y) vps_axis_x.
Definition vps_grid_y : vec :=
  flat_map (fun _ => vps_axis_y) vps_axis_x.
Definition vps : matrix :=
  transpose (zip_with (fun a b => [a; b]) vps_grid_x vps_grid_y).

(** Body-frame gains *)
Definition kp : matrix := diag [120; 600].
Definition kd : matrix := diag [120; 600].

Definition lqr (x : vec) : matrix * matrix :=
  let w2b := [[cos x@[2]; sin x@[2]; 0];
              [0; 0; 1]] in
  let S := diag [1; 1; 0.1; 0.01; 0.001] in
  let K := hstack (dot kp w2b) kd in
  (S, K).

(** Initial condition and goal *)
Definition x : vec := [0; 0; deg2rad 0; 0; 0].
Definition goal : vec := [40; 40; deg2rad 90; 0; 0].

End ModelA.

(** ** The error between two states *)

Definition erf (xgoal x : vec) : vec :=
  let e := subtract xgoal x in
  let c := cos x@[2] in
  let s := sin x@[2] in
  let cg := cos x@[2] in
  let sg := sin xgoal@[2] in
  set_item e 2 (arctan2 (sg * c - cg * s) (cg * c + sg * s)).

(** ** Obstacles and the hard constraint *)

(** One slot of the obstacle grid, for a noised and rounded position [p]:
    the obstacle of radius 1 at [p] when [p] is far enough from the goal and
    from the start, the far-away placeholder otherwise. *)
Definition obstacle_slot (p : vec) : vec :=
  if Rltb (2 * ModelA.boat_length)
          (norm (subtract p (firstn 2 ModelA.goal)))
     && Rltb (2 * ModelA.boat_length)
             (norm (subtract p (firstn 2 ModelA.x)))
  then p ++ [1]
  else times (-9999) [1; 1; 1].

Section Constraints.

(** The obstacle field [obs], which the program draws at random when it
    starts; rows are [x, y, radius]. *)
Variable obs : list vec.

Fixpoint collision_free (verts : matrix) (obs : list vec) : bool :=
  match obs with
  | [] => true
  | ob :: rest =>
      if any (map (fun d => Rleb d (2 * ob@[2]))
                  (norm_rows (sub_rows verts (firstn 2 ob))))
      then false
      else collision_free verts rest
  end.

Definition is_feasible (x u : vec) : bool :=
  let R := [[cos x@[2]; - sin x@[2]];
            [sin x@[2]; cos x@[2]]] in
  let verts := vstack (transpose (dot R ModelA.vps)) [firstn 2 x] in
  collision_free verts obs.

End Constraints.

(** ** The sampling heuristic *)

(** What [xrand_gen] reads of the planner it is given. *)
Record Planner : Type := {
  planner_goal : vec;
  planner_nstates : nat;
  search_buffer_spans : vec;
  search_buffer_offsets : vec;
  tree_state : matrix;
  costs_to_go : vec -> vec
}.

Section Heuristics.

(** The per-channel probabilities of snapping to the goal, a module-level
    setting that [xrand_gen] reads when it is called. *)
Variable sampling_bias : vec.

(** [xrand_gen planner rs r n] is the sample for the draws [rs] of
    [np.random.sample(planner.nstates)], [r] of [np.random.sample()] and
    [n] of [np.random.randn()]. *)
Definition xrand_gen (planner : Planner) (rs : vec) (r n : R) : vec :=
  let sampling_spans :=
    add (times 2 (abs (subtract (planner_goal planner) ModelA.x)))
        (search_buffer_spans planner) in
  let xrand :=
    add (add (planner_goal planner)
             (multiply sampling_spans (map (fun a => a - 0.5) rs)))
        (search_buffer_offsets planner) in
  let xrand :=
    fold_left (fun (xr : vec) '((i, choice) : nat * bool) =>
                 if choice then set_item xr i (planner_goal planner)@[i]
                 else xr)
              (enumerate (greater sampling_bias r)) xrand in
  let closest :=
    nth (argmin (costs_to_go planner (planner_goal planner)))
        (tree_state planner) [] in
  let v_to_goal := subtract ModelA.goal closest in
  let hgoal := arctan2 v_to_goal@[1] v_to_goal@[0] in
  set_item xrand 2 (hgoal + deg2rad 30 * n).

End Heuristics.

(** The setting of the demonstration. *)
Definition sampling_bias : vec := [0.3; 0.3; 0; 0; 0].

(** ** Arrays shared with the caller *)

Module Store.

(** An array object is named by a reference; the store gives its items. *)
Definition ref := nat.
Definition store := ref -> vec.

Definition St (A : Type) : Type := store -> A * store.

Definition ret {A : Type} (a : A) : St A := fun s => (a, s).

Definition bind {A B : Type} (c : St A) (k : A -> St B) : St B :=
  fun s => let (a, s') := c s in k a s'.

Definition read (r : ref) : St vec := fun s => (s r, s).

(** [r[i] = a], in place *)
Definition assign_item (r : ref) (i : nat) (a : R) : St unit :=
  fun s => (tt, fun r' => if Nat.eqb r' r then set_item (s r) i a else s r').

(** The store in which the objects [vs] are named 0, 1, ... *)
Definition store_of (vs : list vec) : store := fun r => nth r vs [].

End Store.

Import Store.

Notation "x <- c ;; k" := (bind c (fun x => k))
  (at level 61, c at next level, right associativity).
Notation "c ;;; k" := (bind c (fun _ => k))
  (at level 61, right associativity).

(** ** Model B: the true dynamics that the plan is tracked on *)

Module ModelB.

(** Experimentally determined mass and inertia *)
Definition m : R := 500.
Definition I : R := 500.
Definition invM : vec := [1 / m; 1 / m; 1 / I].

(** Top speeds of the boat, body-frame forward and backward *)
Definition vel_pos : vec := [1.1; 0.45; 0.2].
Definition vel_neg : vec := [-0.68; -0.45; -0.2].

(** Conservatively estimated maximum wrench *)
Definition thrust_max : R := 220.
Definition thrust_lever : R := 2.15.
Definition u_max : vec :=
  [2 * sqrt 2 * thrust_max; 2 * sqrt 2 * thrust_max;
   4 * thrust_lever * thrust_max].

(** Effective linear drag coefficients *)
Definition D_pos : vec := abs (divide u_max vel_pos).
Definition D_neg : vec := abs (divide u_max vel_neg).

Definition nstates : nat := 6.
Definition ncontrols : nat := 3.

(** Drag coefficients by the signs of the motion *)
Definition drag (v : vec) : vec :=
  fold_left (fun (D : vec) '((i, v) : nat * R) =>
               if Rleb 0 v then set_item D i D_pos@[i]
               else set_item D i D_neg@[i])
            (enumerate v) (zeros 3).

(** Actuator saturation, on the caller's array [u]; [mags] is
    [enumerate(np.abs(u))], taken before the loop starts. *)
Fixpoint saturation (u : ref) (mags : list (nat * R)) : St unit :=
  match mags with
  | [] => ret tt
  | (i, mag) :: rest =>
      (if Rltb u_max@[i] mag
       then uv <- read u ;; assign_item u i (u_max@[i] * sign uv@[i])
       else ret tt) ;;;
      saturation u rest
  end.

Definition dynamics (x u : ref) (dt : R) : St vec :=
  xv <- read x ;;
  let R := [[cos xv@[2]; - sin xv@[2]; 0];
            [sin xv@[2]; cos xv@[2]; 0];
            [0; 0; 1]] in
  let D := drag (skipn 3 xv) in
  uv <- read u ;;
  saturation u (enumerate (abs uv)) ;;;
  xv <- read x ;;
  uv <- read u ;;
  let xdot := dotv R (skipn 3 xv)
              ++ multiply invM (subtract uv (multiply D (skipn 3 xv))) in
  ret (add xv (scale xdot dt)).

(** Body-frame gains *)
Definition kp : matrix := diag [120; 120; 300].
Definition kd : matrix := diag [120; 120; 200].

Definition lqr (x : vec) : matrix * matrix :=
  let R := [[cos x@[2]; - sin x@[2]; 0];
            [sin x@[2]; cos x@[2]; 0];
            [0; 0; 1]] in
  let S := diag [1; 1; 0; 0.05; 0.05; 0] in
  let K := hstack (dot kp (transpose R)) kd in
  (S, K).

(** Real state and goal *)
Definition x : vec :=
  [ModelA.x@[0]; ModelA.x@[1]; ModelA.x@[2]; ModelA.x@[3]; 0; ModelA.x@[4]].
Definition goal : vec :=
  [ModelA.goal@[0]; ModelA.goal@[1]; ModelA.goal@[2]; ModelA.goal@[3]; 0;
   ModelA.goal@[4]].

End ModelB.

(** ** The tracking loop *)

Definition dt : R := 0.03.

(** [t_arr] for a plan whose duration gives [n] steps *)
Definition t_arr (n : nat) : vec := arange 0 dt n.

(** The call [dynamics(x, u, dt)] of the loop: both arguments are arrays
    of the caller, the result is a new array. *)
Definition call_dynamics (x u : vec) (dt : R) : vec :=
  fst (ModelB.dynamics 0%nat 1%nat dt (store_of [x; u])).

Record History : Type := {
  x_history : matrix;
  xref_history : matrix;
  goal_history : matrix;
  u_history : matrix
}.

Section Simulation.

(** The plan, as the planner answers for it. *)
Variable get_state : R -> vec.
Variable get_effort : R -> vec.

(** One pass through the body of the loop, at index [i] and time [t]. *)
Definition simulation_step (xh : vec * History) (it : nat * R)
  : vec * History :=
  let (x, h) := xh in
  let (i, t) := it in
  let xplan := get_state t in
  let uplan := get_effort t in
  let xref := [xplan@[0]; xplan@[1]; xplan@[2]; xplan@[3]; 0; xplan@[4]] in
  let uref := [uplan@[0]; 0; uplan@[1]] in
  let u := add (dotv (snd (ModelB.lqr x)) (erf xref x)) uref in
  let h := {| x_history := set_nth (x_history h) i x;
              xref_history := set_nth (xref_history h) i xref;
              goal_history := set_nth (goal_history h) i ModelB.goal;
              u_history := set_nth (u_history h) i u |} in
  (call_dynamics x u dt, h).

Definition preallocated (n : nat) : History :=
  {| x_history := repeat (zeros ModelB.nstates) n;
     xref_history := repeat (zeros ModelB.nstates) n;
     goal_history := repeat (zeros ModelB.nstates) n;
     u_history := repeat (zeros ModelB.ncontrols) n |}.

Definition simulation (x : vec) (t_arr : vec) : vec * History :=
  fold_left simulation_step (enumerate t_arr)
            (x, preallocated (length t_arr)).

End Simulation.

(** ** The notions the properties are stated with *)

(** Clipping a number to the interval from [lo] to [hi]. *)
Definition saturate (a lo hi : R) : R :=
  if Rltb a lo then lo else if Rltb hi a then hi else a.

(** [d] is the shortest signed angular difference from heading [h] to
    heading [hgoal]: the turn in (-PI, PI] that differs from [hgoal - h] by
    full turns only. *)
Definition shortest_signed_difference (hgoal h d : R) : Prop :=
  - PI < d <= PI /\ exists k : Z, d = hgoal - h + 2 * IZR k * PI.

(** The footprint in the world frame: every vehicle point rotated by the
    heading and moved to the position, and the position itself. *)
Definition world_footprint (x : vec) : matrix :=
  map (fun p => [x@[0] + (cos x@[2] * p@[0] - sin x@[2] * p@[1]);
                 x@[1] + (sin x@[2] * p@[0] + cos x@[2] * p@[1])])
      (transpose ModelA.vps)
  ++ [[x@[0]; x@[1]]].

(** Some point of [verts] is within twice the radius of some obstacle. *)
Definition collides (verts : matrix) (obs : list vec) : Prop :=
  exists ob p, In ob obs /\ In p verts
               /\ norm (subtract p (firstn 2 ob)) <= 2 * ob@[2].

(** The diagonal of a square matrix, and being diagonal. *)
Definition diagonal (S : matrix) : vec :=
  map (fun i => (nth i S [])@[i]) (seq 0 (length S)).

Definition is_diagonal (S : matrix) : Prop :=
  forall i j : nat, i <> j -> (nth i S [])@[j] = 0.

(** Weights of the channels [x, y, heading, velocities...] in which the
    positions weigh at least as much as every other channel and the heading
    at least as much as every velocity channel. *)
Definition progressively_lower (w : vec) : Prop :=
  (forall k : nat, (2 <= k < length w)%nat -> w@[k] <= w@[0] /\ w@[k] <= w@[1])
  /\ (forall k : nat, (3 <= k < length w)%nat -> w@[k] <= w@[2]).

(** What the saturation loop of Model B leaves in item [i] of the control,
    and in the whole control. *)
Definition saturated (i : nat) (a : R) : R :=
  if Rltb ModelB.u_max@[i] (Rabs a) then ModelB.u_max@[i] * sign a else a.

Definition saturated_from (k : nat) (u : vec) : vec :=
  map (fun ia : nat * R => saturated (fst ia) (snd ia))
      (combine (seq k (length u)) u).

(** A planner state and a planner effort in the channels of Model B. *)
Definition reference_state (xplan : vec) : vec :=
  [xplan@[0]; xplan@[1]; xplan@[2]; xplan@[3]; 0; xplan@[4]].

Definition reference_effort (uplan : vec) : vec :=
  [uplan@[0]; 0; uplan@[1]].

(** Feedback on the error to the reference, plus the reference effort. *)
Definition applied_control (xref uref x : vec) : vec :=
  add (dotv (snd (ModelB.lqr x)) (erf xref x)) uref.

(** Row [i] of the four recorded arrays, and arrays of [n] rows. *)
Definition row (h : History) (i : nat) : vec * vec * vec * vec :=
  (nth i (x_history h) [], nth i (xref_history h) [],
   nth i (goal_history h) [], nth i (u_history h) []).

Definition allocated (h : History) (n : nat) : Prop :=
  length (x_history h) = n /\ length (xref_history h) = n
  /\ length (goal_history h) = n /\ length (u_history h) = n.

(** The loop of [xrand_gen] over the choices, from channel [k] on. *)
Definition snap (goal : vec) (k : nat) (choices : list bool) (xrand : vec) : vec :=
  fold_left (fun (xr : vec) '((i, choice) : nat * bool) =>
               if choice then set_item xr i goal@[i] else xr)
            (combine (seq k (length choices)) choices) xrand.

(** A planner as the demonstration sets it up, before the first expansion:
    the goal of the demonstration, the spans and the centres of
    [search_buffer], and a tree that holds the start state only. *)
Definition search_buffer : list (R * R) :=
  [(0, 0); (0, 0); (- PI, PI); (1, 1.1); (-0.2, 0.2)].

Definition start_planner : Planner :=
  {| planner_goal := ModelA.goal;
     planner_nstates := ModelA.nstates;
     search_buffer_spans := map (fun b => snd b - fst b) search_buffer;
     search_buffer_offsets := map (fun b => (fst b + snd b) / 2) search_buffer;
     tree_state := [ModelA.x];
     costs_to_go := fun _ => [0] |}.

(** The points that [is_feasible] measures from: the vehicle points
    rotated by the heading, and the position. *)
Definition checked_points (x : vec) : matrix :=
  vstack (transpose (dot [[cos x@[2]; - sin x@[2]];
                          [sin x@[2]; cos x@[2]]] ModelA.vps))
         [firstn 2 x].

(** The standard sample of [xrand_gen], before any channel is snapped. *)
Definition base_sample (planner : Planner) (rs : vec) : vec :=
  add (add (planner_goal planner)
           (multiply (add (times 2 (abs (subtract (planner_goal planner)
                                                  ModelA.x)))
                          (search_buffer_spans planner))
                     (map (fun a => a - 0.5) rs)))
      (search_buffer_offsets planner).

(** The tree node that [xrand_gen] takes the bearing from. *)
Definition closest_node (planner : Planner) : vec :=
  nth (argmin (costs_to_go planner (planner_goal planner)))
      (tree_state planner) [].




(** ** Reading the tests on reals *)

Lemma Rltb_true (a b : R) : a < b -> Rltb a b = true.
Proof. intros H. unfold Rltb. destruct (Rlt_dec a b); [reflexivity | contradiction]. Qed.

Lemma Rltb_false (a b : R) : b <= a -> Rltb a b = false.
Proof. intros H. unfold Rltb. destruct (Rlt_dec a b); [lra | reflexivity]. Qed.

Lemma Rltb_cases (a b : R) :
  (a < b /\ Rltb a b = true) \/ (b <= a /\ Rltb a b = false).
Proof.
  destruct (Rlt_le_dec a b); [left | right]; split; trivial;
    [apply Rltb_true | apply Rltb_false]; assumption.
Qed.

Lemma Rleb_true (a b : R) : a <= b -> Rleb a b = true.
Proof. intros H. unfold Rleb. destruct (Rle_dec a b); [reflexivity | contradiction]. Qed.

Lemma Rleb_false (a b : R) : b < a -> Rleb a b = false.
Proof. intros H. unfold Rleb. destruct (Rle_dec a b); [lra | reflexivity]. Qed.

Lemma Rleb_cases (a b : R) :
  (a <= b /\ Rleb a b = true) \/ (b < a /\ Rleb a b = false).
Proof.
  destruct (Rle_lt_dec a b); [left | right]; split; trivial;
    [apply Rleb_true | apply Rleb_false]; assumption.
Qed.

(** Splits a list of known length into its items. *)
Ltac items v :=
  repeat match goal with
         | H : length v = S _ |- _ =>
             let a := fresh v in
             destruct v as [| a v]; [discriminate H |];
             simpl in H; apply eq_add_S in H
         | H : length v = O |- _ =>
             destruct v; [clear H | discriminate H]
         end.

Lemma sqrt2_bounds : 1 < sqrt 2 < 2.
Proof.
  assert (H0 : 0 <= sqrt 2) by apply sqrt_pos.
  assert (H2 : sqrt 2 * sqrt 2 = 2) by (apply sqrt_sqrt; lra).
  split; nra.
Qed.

Lemma clip1_saturate (a lo hi : R) :
  lo <= hi -> clip1 a lo hi = saturate a lo hi.
Proof.
  intros Hlh. unfold clip1, saturate, Rmin, Rmax.
  destruct (Rltb_cases a lo) as [[H1 ->] | [H1 ->]];
    destruct (Rltb_cases hi a) as [[H2 E2] | [H2 E2]]; try rewrite E2;
    destruct (Rle_dec a lo); destruct (Rle_dec _ hi); lra.
Qed.

Lemma saturate_bounds (a lo hi : R) :
  lo <= hi -> lo <= saturate a lo hi <= hi.
Proof.
  intros Hlh. unfold saturate.
  destruct (Rltb_cases a lo) as [[H1 ->] | [H1 ->]];
    [| destruct (Rltb_cases hi a) as [[H2 ->] | [H2 ->]]]; lra.
Qed.

Lemma saturate_idem (a lo hi : R) :
  lo <= hi -> saturate (saturate a lo hi) lo hi = saturate a lo hi.
Proof.
  intros Hlh. pose proof (saturate_bounds a lo hi Hlh) as [Hl Hh].
  unfold saturate at 1.
  rewrite (Rltb_false _ _ Hl), (Rltb_false _ _ Hh). reflexivity.
Qed.

Section ModelA_dynamics.
Import ModelA.

Lemma u_max_pos : 0 < u_max@[0] /\ 0 < u_max@[1].
Proof.
  destruct sqrt2_bounds as [Hs _]. unfold u_max, thrust_max, thrust_lever.
  cbn. split; lra.
Qed.

(** The control that [dynamics] evaluates the drag law with. *)
Lemma clip_u_max (u0 u1 : R) :
  clip [u0; u1] [- u_max@[0] / 10; - u_max@[1]] u_max
  = [saturate u0 (- u_max@[0] / 10) u_max@[0];
     saturate u1 (- u_max@[1]) u_max@[1]].
Proof.
  destruct u_max_pos as [H0 H1].
  rewrite <- !clip1_saturate by lra. reflexivity.
Qed.

(** C1. The forward speed (item 3) of the state that Model A's [dynamics]
    returns is never negative: it is zero when first-order integration gives
    a negative forward speed, and the integrated value otherwise. *)
Theorem dynamics_forward_speed_nonneg (x u : vec) (dt : R) :
  length x = 5%nat -> length u = 2%nat ->
  let us := clip u [- u_max@[0] / 10; - u_max@[1]] u_max in
  let v := x@[3] + invM@[0] * (us@[0] - D@[0] * x@[3]) * dt in
  0 <= (dynamics x u dt)@[3]
  /\ (v < 0 -> (dynamics x u dt)@[3] = 0)
  /\ (0 <= v -> (dynamics x u dt)@[3] = v).
Proof.
  intros Hx Hu. items x. items u. unfold dynamics. cbn.
  match goal with
  | |- context [Rltb ?a 0] => destruct (Rltb_cases a 0) as [[Hv ->] | [Hv ->]]
  end; cbn; repeat split; intros; lra.
Qed.

Lemma dynamics_forward_speed_nonneg_witness :
  0 <= (dynamics [0; 0; 0; 0.01; 0] [0; 0] 0.1)@[3].
Proof.
  apply (dynamics_forward_speed_nonneg [0; 0; 0; 0.01; 0] [0; 0] 0.1);
    reflexivity.
Defined.

(** C4. The control that Model A's [dynamics] uses is the input clipped to
    [-max/10, +max] on axis 0 and to [-max, +max] on axis 1, and the drag
    law is evaluated on the clipped control. *)
Theorem dynamics_control_saturated (x u : vec) (dt : R) :
  length x = 5%nat -> length u = 2%nat ->
  let us := [saturate u@[0] (- u_max@[0] / 10) u_max@[0];
             saturate u@[1] (- u_max@[1]) u_max@[1]] in
  let v := x@[3] + invM@[0] * (us@[0] - D@[0] * x@[3]) * dt in
  clip u [- u_max@[0] / 10; - u_max@[1]] u_max = us
  /\ (- u_max@[0] / 10 <= us@[0] <= u_max@[0])
  /\ (- u_max@[1] <= us@[1] <= u_max@[1])
  /\ (dynamics x u dt)@[3] = (if Rltb v 0 then 0 else v)
  /\ (dynamics x u dt)@[4]
     = x@[4] + invM@[1] * (us@[1] - D@[1] * x@[4]) * dt
  /\ dynamics x u dt = dynamics x us dt.
Proof.
  intros Hx Hu. items x. items u.
  destruct u_max_pos as [H0 H1].
  assert (Hc := clip_u_max u0 u1).
  cbv zeta. change ([u0; u1]@[0]) with u0. change ([u0; u1]@[1]) with u1.
  split; [exact Hc |].
  split; [apply saturate_bounds; lra |].
  split; [apply saturate_bounds; lra |].
  assert (Hd : forall w, dynamics [x0; x1; x2; x3; x4] w dt
    = let us := clip w [- u_max@[0] / 10; - u_max@[1]] u_max in
      let xnext := add [x0; x1; x2; x3; x4]
        (scale ([cos x2 * x3; sin x2 * x3; x4]
                ++ multiply invM (subtract us (multiply D [x3; x4]))) dt) in
      if Rltb xnext@[3] 0 then set_item xnext 3 0 else xnext)
    by reflexivity.
  rewrite !Hd. cbv zeta. rewrite !clip_u_max.
  change ([?a; ?b]@[0]) with a. 
  rewrite !saturate_idem by lra.
  cbn.
  match goal with
  | |- context [Rltb ?a 0] => destruct (Rltb_cases a 0) as [[Hv ->] | [Hv ->]]
  end; cbn; repeat split; reflexivity.
Qed.

Lemma dynamics_control_saturated_witness :
  (dynamics [0; 0; 0; 1; 0] [1000; 0] 0.1)
  = dynamics [0; 0; 0; 1; 0]
      [saturate 1000 (- u_max@[0] / 10) u_max@[0];
       saturate 0 (- u_max@[1]) u_max@[1]] 0.1.
Proof.
  apply (dynamics_control_saturated [0; 0; 0; 1; 0] [1000; 0] 0.1);
    reflexivity.
Defined.

End ModelA_dynamics.

(** ** The error metric *)

Section Error_metric.

Lemma set_nth_length {A : Type} (l : list A) (i : nat) (a : A) :
  length (set_nth l i a) = length l.
Proof.
  revert i. induction l as [| h t IH]; intros [| j]; simpl; auto.
Qed.

Lemma nth_set_nth_same {A : Type} (l : list A) (i : nat) (a d : A) :
  (i < length l)%nat -> nth i (set_nth l i a) d = a.
Proof.
  revert i. induction l as [| h t IH]; intros [| j] Hi; simpl in *;
    try lia; auto. apply IH. lia.
Qed.

Lemma nth_set_nth_other {A : Type} (l : list A) (i j : nat) (a d : A) :
  i <> j -> nth j (set_nth l i a) d = nth j l d.
Proof.
  revert i j. induction l as [| h t IH]; intros [| i] [| j] Hij; simpl;
    auto; try congruence.
Qed.

Lemma set_nth_id {A : Type} (l : list A) (i : nat) (d : A) :
  set_nth l i (nth i l d) = l.
Proof.
  revert i. induction l as [| h t IH]; intros [| j]; simpl; auto.
  f_equal. apply IH.
Qed.

Lemma subtract_self (x : vec) : subtract x x = zeros (length x).
Proof.
  induction x as [| a t IH]; simpl; [reflexivity |].
  unfold subtract, zeros in *. simpl. rewrite IH. f_equal. lra.
Qed.

Lemma item_zeros (n i : nat) : (zeros n)@[i] = 0.
Proof.
  unfold item, zeros. revert i. induction n; intros [| i]; simpl; auto.
Qed.

Lemma arctan2_pos (y x : R) : 0 < x -> arctan2 y x = atan (y / x).
Proof. intros H. unfold arctan2. rewrite Rltb_true by exact H. reflexivity. Qed.

Lemma atan_nonneg (z : R) : 0 <= z -> 0 <= atan z.
Proof.
  intros [H | <-]; [| rewrite atan_0; lra].
  left. rewrite <- atan_0. apply atan_increasing. exact H.
Qed.

Lemma atan_nonpos (z : R) : z <= 0 -> atan z <= 0.
Proof.
  intros [H | ->]; [| rewrite atan_0; lra].
  left. rewrite <- atan_0. apply atan_increasing. exact H.
Qed.

(** [np.arctan2] answers in (-PI, PI]. *)
Lemma arctan2_range (y x : R) : - PI < arctan2 y x <= PI.
Proof.
  pose proof PI_RGT_0 as HPI. unfold arctan2.
  destruct (Rltb_cases 0 x) as [[Hx ->] | [Hx ->]].
  { pose proof (atan_bound (y / x)). lra. }
  destruct (Rltb_cases x 0) as [[Hx' ->] | [Hx' ->]].
  { pose proof (atan_bound (y / x)) as Hb.
    destruct (Rltb_cases y 0) as [[Hy ->] | [Hy ->]].
    - assert (0 < atan (y / x)).
      { rewrite <- atan_0. apply atan_increasing. unfold Rdiv.
        replace (y * / x) with ((- y) * (- / x)) by ring.
        apply Rmult_lt_0_compat; [lra |].
        pose proof (Rinv_lt_0_compat x Hx'). lra. }
      lra.
    - assert (atan (y / x) <= 0).
      { apply atan_nonpos. unfold Rdiv.
        replace (y * / x) with (- (y * (- / x))) by ring.
        pose proof (Rinv_lt_0_compat x Hx').
        assert (0 <= y * - / x) by (apply Rmult_le_pos; lra). lra. }
      lra. }
  destruct (Rltb_cases 0 y) as [[Hy ->] | [Hy ->]]; [lra |].
  destruct (Rltb_cases y 0) as [[Hy' ->] | [Hy' ->]]; lra.
Qed.

(** The heading channel of [erf] is always an angle in (-PI, PI]. *)
Lemma erf_heading_range (xgoal x : vec) :
  (3 <= length xgoal)%nat -> (3 <= length x)%nat ->
  - PI < (erf xgoal x)@[2] <= PI.
Proof.
  intros Hg Hx. unfold erf, item, set_item.
  rewrite nth_set_nth_same; [apply arctan2_range |].
  destruct xgoal as [| g0 [| g1 [| g2 tg]]]; simpl in Hg; try lia.
  destruct x as [| a0 [| a1 [| a2 ta]]]; simpl in Hx; try lia.
  simpl. lia.
Qed.

(** C10. The error between a state and itself is the zero vector; its
    heading channel in particular is exactly zero. *)
Theorem erf_self_zero (x : vec) :
  (3 <= length x)%nat ->
  erf x x = zeros (length x) /\ (erf x x)@[2] = 0.
Proof.
  intros Hx.
  assert (H : erf x x = zeros (length x)).
  { unfold erf. rewrite subtract_self.
    replace (sin x@[2] * cos x@[2] - cos x@[2] * sin x@[2]) with 0 by ring.
    replace (cos x@[2] * cos x@[2] + sin x@[2] * sin x@[2]) with 1
      by (pose proof (sin2_cos2 x@[2]) as E; unfold Rsqr in E; lra).
    rewrite arctan2_pos by lra.
    replace (0 / 1) with 0 by field. rewrite atan_0.
    unfold set_item.
    transitivity (set_nth (zeros (length x)) 2 (zeros (length x))@[2]);
      [| apply set_nth_id].
    f_equal. symmetry. apply item_zeros. }
  split; [exact H |]. rewrite H. apply item_zeros.
Qed.

Lemma erf_self_zero_witness :
  erf [3; 4; 7; 1; 0] [3; 4; 7; 1; 0] = zeros 5.
Proof.
  apply (erf_self_zero [3; 4; 7; 1; 0]). simpl. lia.
Defined.

(** C2. With the goal heading a quarter turn to the left of the current
    heading, the heading channel of [erf] is an eighth of a turn, which
    is not the shortest signed difference of the two headings: the quarter
    turn is. *)
Theorem erf_heading_quarter_turn :
  (erf [0; 0; PI / 2; 0; 0] [0; 0; 0; 0; 0])@[2] = PI / 4
  /\ shortest_signed_difference (PI / 2) 0 (PI / 2)
  /\ ~ shortest_signed_difference (PI / 2) 0 (PI / 4).
Proof.
  pose proof PI_RGT_0 as HPI.
  split; [| split].
  - unfold erf. cbn. rewrite sin_PI2, cos_0, sin_0.
    rewrite arctan2_pos by lra.
    replace ((1 * 1 - 1 * 0) / (1 * 1 + 1 * 0)) with 1 by field.
    apply atan_1.
  - split; [lra |]. exists 0%Z. simpl. lra.
  - intros [_ [k Hk]].
    assert (E : IZR (8 * k) = IZR (-1)).
    { rewrite mult_IZR. apply (Rmult_eq_reg_l PI); [| lra].
      simpl (IZR 8). simpl (IZR (-1)). lra. }
    apply eq_IZR in E. lia.
Qed.

End Error_metric.

(** ** The cost-to-go matrices of the two policies *)

Section Policy.

Lemma nth_map_seq {A : Type} (f : nat -> A) (n i : nat) (d : A) :
  (i < n)%nat -> nth i (map f (seq 0 n)) d = f i.
Proof.
  intros Hi. rewrite (nth_indep _ d (f O)) by (rewrite length_map, length_seq; exact Hi).
  rewrite map_nth, seq_nth by exact Hi. reflexivity.
Qed.

Lemma diag_is_diagonal (d : vec) : is_diagonal (diag d).
Proof.
  intros i j Hij. unfold diag, item.
  destruct (Nat.lt_ge_cases i (length d)) as [Hi | Hi].
  - rewrite nth_map_seq by exact Hi.
    destruct (Nat.lt_ge_cases j (length d)) as [Hj | Hj].
    + rewrite nth_map_seq by exact Hj.
      destruct (Nat.eqb_spec i j); [contradiction | reflexivity].
    + apply nth_overflow. rewrite length_map, length_seq. exact Hj.
  - rewrite (nth_overflow (map _ _)) by (rewrite length_map, length_seq; exact Hi).
    destruct j; reflexivity.
Qed.

Lemma diagonal_diag (d : vec) : diagonal (diag d) = d.
Proof.
  unfold diagonal.
  assert (Hl : length (diag d) = length d)
    by (unfold diag; rewrite length_map, length_seq; reflexivity).
  rewrite Hl. apply nth_ext with (d := 0) (d' := 0).
  - rewrite length_map, length_seq. reflexivity.
  - intros i Hi. rewrite length_map, length_seq in Hi.
    rewrite nth_map_seq by exact Hi.
    unfold diag, item. rewrite !nth_map_seq by exact Hi.
    rewrite Nat.eqb_refl. reflexivity.
Qed.

Lemma lqr_A_weights (x : vec) :
  fst (ModelA.lqr x) = diag [1; 1; 0.1; 0.01; 0.001].
Proof. reflexivity. Qed.

Lemma lqr_B_weights (x : vec) :
  fst (ModelB.lqr x) = diag [1; 1; 0; 0.05; 0.05; 0].
Proof. reflexivity. Qed.

(** Model B weighs the heading (0) below the two linear velocities (0.05):
    its weights do not fall from heading to velocity. *)
Lemma lqr_B_weights_not_progressive :
  ~ progressively_lower (diagonal (fst (ModelB.lqr [0; 0; 0; 0; 0; 0]))).
Proof.
  rewrite lqr_B_weights, diagonal_diag. intros [_ H].
  specialize (H 3%nat). cbn in H.
  assert (Hk : (3 <= 3 < 6)%nat) by lia. specialize (H Hk). lra.
Qed.

(** C9, as the code has it. For each model the cost-to-go matrix is the same
    diagonal matrix at every state, and the two positions weigh 1, strictly
    more than every other channel. Model A's weights then fall from heading
    to forward speed to yaw rate; Model B weighs heading and yaw rate 0 and
    the two linear velocities 0.05. *)
Theorem lqr_cost_to_go_fixed :
  (forall x y : vec, fst (ModelA.lqr x) = fst (ModelA.lqr y))
  /\ (forall x y : vec, fst (ModelB.lqr x) = fst (ModelB.lqr y))
  /\ (forall x : vec, is_diagonal (fst (ModelA.lqr x))
                      /\ diagonal (fst (ModelA.lqr x))
                         = [1; 1; 0.1; 0.01; 0.001])
  /\ (forall x : vec, is_diagonal (fst (ModelB.lqr x))
                      /\ diagonal (fst (ModelB.lqr x))
                         = [1; 1; 0; 0.05; 0.05; 0])
  /\ (forall (x : vec) (k : nat), (2 <= k < 5)%nat ->
        (diagonal (fst (ModelA.lqr x)))@[k] < 1)
  /\ (forall (x : vec) (k : nat), (2 <= k < 6)%nat ->
        (diagonal (fst (ModelB.lqr x)))@[k] < 1)
  /\ (forall x : vec,
        let w := diagonal (fst (ModelA.lqr x)) in
        progressively_lower w /\ w@[3] < w@[2] /\ w@[4] < w@[3]).
Proof.
  split; [reflexivity |]. split; [reflexivity |].
  split; [intros x; rewrite lqr_A_weights; split;
          [apply diag_is_diagonal | apply diagonal_diag] |].
  split; [intros x; rewrite lqr_B_weights; split;
          [apply diag_is_diagonal | apply diagonal_diag] |].
  split; [| split].
  - intros x k Hk. rewrite lqr_A_weights, diagonal_diag.
    assert (E : k = 2%nat \/ k = 3%nat \/ k = 4%nat) by lia.
    destruct E as [-> | [-> | ->]]; cbn; lra.
  - intros x k Hk. rewrite lqr_B_weights, diagonal_diag.
    assert (E : k = 2%nat \/ k = 3%nat \/ k = 4%nat \/ k = 5%nat) by lia.
    destruct E as [-> | [-> | [-> | ->]]]; cbn; lra.
  - intros x. cbv zeta. rewrite lqr_A_weights, diagonal_diag.
    split; [split |].
    + intros k Hk. cbn in Hk.
      assert (E : k = 2%nat \/ k = 3%nat \/ k = 4%nat) by lia.
      destruct E as [-> | [-> | ->]]; cbn; lra.
    + intros k Hk. cbn in Hk.
      assert (E : k = 3%nat \/ k = 4%nat) by lia.
      destruct E as [-> | ->]; cbn; lra.
    + cbn. lra.
Qed.

Lemma lqr_cost_to_go_fixed_witness :
  (diagonal (fst (ModelA.lqr [0; 0; 0; 0; 0])))@[2] < 1.
Proof.
  apply lqr_cost_to_go_fixed. lia.
Defined.

End Policy.

(** ** Model B: what a step returns and what it does to its arguments *)

Section ModelB_dynamics.

Lemma nth_middle_item (pre t : vec) (a : R) :
  (pre ++ a :: t)@[length pre] = a.
Proof. unfold item. apply nth_middle. Qed.

Lemma set_nth_middle {A : Type} (pre t : list A) (a b : A) :
  set_nth (pre ++ a :: t) (length pre) b = pre ++ b :: t.
Proof. induction pre as [| p pre IH]; simpl; [reflexivity | f_equal; exact IH]. Qed.

(** The loop rewrites the items of [u] one by one and touches no other
    array. *)
Lemma saturation_effect (u : ref) (t pre : vec) (s : store) :
  s u = pre ++ t ->
  let s' := snd (ModelB.saturation u
                   (combine (seq (length pre) (length t)) (abs t)) s) in
  s' u = pre ++ saturated_from (length pre) t
  /\ forall r : ref, r <> u -> s' r = s r.
Proof.
  revert pre s. induction t as [| a t IH]; intros pre s Hs; cbv zeta.
  - simpl. split; [exact Hs | reflexivity].
  - simpl combine. cbn [ModelB.saturation].
    set (first := if Rltb ModelB.u_max@[length pre] (Rabs a)
                  then _ else _).
    unfold bind.
    assert (Hfirst : let s1 := snd (first s) in
              s1 u = pre ++ saturated (length pre) a :: t
              /\ forall r : ref, r <> u -> s1 r = s r).
    { subst first. unfold saturated.
      destruct (Rltb ModelB.u_max@[length pre] (Rabs a)).
      - unfold bind, read, assign_item. cbn [snd]. split.
        + rewrite Nat.eqb_refl, Hs, nth_middle_item. apply set_nth_middle.
        + intros r Hr. destruct (Nat.eqb_spec r u); [contradiction | reflexivity].
      - unfold ret. cbn [snd]. split; [exact Hs | reflexivity]. }
    destruct (first s) as [[] s1]. cbn [snd] in Hfirst.
    destruct Hfirst as [Hu1 Hframe1].
    specialize (IH (pre ++ [saturated (length pre) a]) s1).
    rewrite length_app, Nat.add_1_r in IH. cbn [length] in IH.
    rewrite <- app_assoc in IH. specialize (IH Hu1). cbv zeta in IH.
    destruct IH as [IHu IHframe]. split.
    + rewrite IHu, <- app_assoc. reflexivity.
    + intros r Hr. rewrite IHframe by exact Hr. apply Hframe1. exact Hr.
Qed.

(** A step of Model B leaves in [u] the saturated control, keeps every
    other array, and returns the first-order step under the saturated
    control. *)
Lemma dynamics_B_effect (x u : ref) (dt : R) (s : store) :
  x <> u ->
  let (xnext, s') := ModelB.dynamics x u dt s in
  let v := skipn 3 (s x) in
  let R := [[cos (s x)@[2]; - sin (s x)@[2]; 0];
            [sin (s x)@[2]; cos (s x)@[2]; 0];
            [0; 0; 1]] in
  s' u = saturated_from 0 (s u)
  /\ (forall r : ref, r <> u -> s' r = s r)
  /\ xnext = add (s x)
               (scale (dotv R v
                       ++ multiply ModelB.invM
                            (subtract (saturated_from 0 (s u))
                                      (multiply (ModelB.drag v) v)))
                      dt).
Proof.
  intros Hxu. unfold ModelB.dynamics, bind, read, ret.
  pose proof (saturation_effect u (s u) [] s eq_refl) as H.
  cbv zeta in H. cbn [length app] in H. unfold enumerate.
  replace (length (abs (s u))) with (length (s u))
    by (unfold abs; rewrite length_map; reflexivity).
  destruct (ModelB.saturation u _ s) as [[] s']. cbn [snd] in H.
  destruct H as [Hu Hframe].
  rewrite Hu, (Hframe x Hxu). repeat split; auto.
Qed.

Lemma call_dynamics_value (x u : vec) (dt : R) :
  call_dynamics x u dt
  = let v := skipn 3 x in
    let R := [[cos x@[2]; - sin x@[2]; 0];
              [sin x@[2]; cos x@[2]; 0];
              [0; 0; 1]] in
    add x (scale (dotv R v
                  ++ multiply ModelB.invM
                       (subtract (saturated_from 0 u)
                                 (multiply (ModelB.drag v) v)))
                 dt).
Proof.
  unfold call_dynamics.
  pose proof (dynamics_B_effect 0%nat 1%nat dt (store_of [x; u])) as H.
  destruct (ModelB.dynamics 0%nat 1%nat dt (store_of [x; u])) as [xnext s'].
  destruct H as (_ & _ & H); [discriminate |]. exact H.
Qed.

Lemma u_max_B_bounds :
  0 < ModelB.u_max@[0] < 1000 /\ 0 < ModelB.u_max@[1] /\ 0 < ModelB.u_max@[2].
Proof.
  destruct sqrt2_bounds as [Hs Hs'].
  unfold ModelB.u_max, ModelB.thrust_max, ModelB.thrust_lever. cbn.
  repeat split; lra.
Qed.

(** C8. A step of Model B overwrites the control array it is given: called
    with the thrust 1000 on axis 0, which exceeds the maximum, it leaves the
    maximum in the caller's array. *)
Theorem dynamics_B_overwrites_control :
  let s := store_of [[0; 0; 0; 0; 0; 0]; [1000; 0; 0]] in
  let s' := snd (ModelB.dynamics 0%nat 1%nat dt s) in
  s 1%nat = [1000; 0; 0]
  /\ s' 1%nat = [ModelB.u_max@[0]; 0; 0]
  /\ s' 1%nat <> s 1%nat
  /\ s' 0%nat = s 0%nat.
Proof.
  cbv zeta.
  pose proof (dynamics_B_effect 0%nat 1%nat dt
                (store_of [[0; 0; 0; 0; 0; 0]; [1000; 0; 0]])) as H.
  destruct (ModelB.dynamics _ _ _ _) as [xnext s']. cbn [snd].
  destruct H as (Hu & Hframe & _); [discriminate |].
  destruct u_max_B_bounds as ([Hp Hlt] & Hp1 & Hp2).
  assert (E : s' 1%nat = [ModelB.u_max@[0]; 0; 0]).
  { rewrite Hu. unfold store_of, saturated_from, saturated. cbn [nth length seq combine map fst snd].
    rewrite Rabs_R0, (Rabs_pos_eq 1000) by lra.
    rewrite (Rltb_true _ 1000) by exact Hlt.
    rewrite !Rltb_false by lra.
    unfold sign. rewrite (Rltb_false 1000 0), (Rltb_true 0 1000) by lra.
    f_equal. lra. }
  split; [reflexivity |]. split; [exact E |]. split.
  - rewrite E. unfold store_of. cbn [nth]. intros C.
    injection C as C. lra.
  - apply Hframe. discriminate.
Qed.

End ModelB_dynamics.

(** ** The tracking loop *)

Section Tracking.

Variable get_state : R -> vec.
Variable get_effort : R -> vec.

Let step := simulation_step get_state get_effort.

Lemma simulation_step_effect (x : vec) (h : History) (k n : nat) (t : R) :
  allocated h n -> (k < n)%nat ->
  let xref := reference_state (get_state t) in
  let u := applied_control xref (reference_effort (get_effort t)) x in
  let r := step (x, h) (k, t) in
  fst r = call_dynamics x u dt
  /\ allocated (snd r) n
  /\ row (snd r) k = (x, xref, ModelB.goal, u)
  /\ forall i : nat, i <> k -> row (snd r) i = row h i.
Proof.
  intros (H1 & H2 & H3 & H4) Hk. cbv zeta.
  unfold step, simulation_step. cbn [fst snd].
  split; [reflexivity |]. split.
  - unfold allocated. cbn. rewrite !set_nth_length. auto.
  - split.
    + unfold row. cbn.
      rewrite !nth_set_nth_same by lia. reflexivity.
    + intros i Hi. unfold row. cbn.
      rewrite !nth_set_nth_other by congruence. reflexivity.
Qed.

(** The loop from index [k] on, over the times [ts] that remain. *)
Lemma simulation_loop (ts : vec) :
  forall (k : nat) (x : vec) (h : History) (n : nat),
  allocated h n -> (k + length ts <= n)%nat ->
  let r := fold_left step (combine (seq k (length ts)) ts) (x, h) in
  allocated (snd r) n
  /\ (forall i : nat, (i < k)%nat -> row (snd r) i = row h i)
  /\ match ts with
     | [] => fst r = x
     | _ :: _ => nth k (x_history (snd r)) [] = x
     end
  /\ forall j : nat, (j < length ts)%nat ->
       let xj := nth (k + j) (x_history (snd r)) [] in
       let xref := reference_state (get_state (nth j ts 0)) in
       let u := applied_control xref
                  (reference_effort (get_effort (nth j ts 0))) xj in
       row (snd r) (k + j) = (xj, xref, ModelB.goal, u)
       /\ (if (S j <? length ts)%nat
           then nth (k + S j) (x_history (snd r)) []
           else fst r) = call_dynamics xj u dt.
Proof.
  induction ts as [| t ts IH]; intros k x h n Hh Hn; cbv zeta.
  - cbn. split; [exact Hh |]. split; [reflexivity |].
    split; [reflexivity |]. intros j Hj. lia.
  - cbn [length seq combine fold_left] in *.
    pose proof (simulation_step_effect x h k n t Hh ltac:(lia)) as Hs.
    cbv zeta in Hs. destruct (step (x, h) (k, t)) as [x1 h1].
    cbn [fst snd] in Hs. destruct Hs as (Hx1 & Hh1 & Hrow & Hother).
    specialize (IH (S k) x1 h1 n Hh1 ltac:(lia)). cbv zeta in IH.
    set (r := fold_left step (combine (seq (S k) (length ts)) ts) (x1, h1))
      in *.
    destruct IH as (Hal & Hbelow & Hnext & Hrows).
    assert (Hk : row (snd r) k = row h1 k) by (apply Hbelow; lia).
    assert (Hxk : nth k (x_history (snd r)) [] = x).
    { rewrite Hrow in Hk. unfold row in Hk.
      injection Hk as Hk _ _ _. exact Hk. }
    split; [exact Hal |]. split.
    { intros i Hi. rewrite Hbelow by lia. apply Hother. lia. }
    split; [exact Hxk |].
    intros [| j] Hj.
    + rewrite Nat.add_0_r, Hxk. cbn [nth]. split.
      * rewrite Hk. exact Hrow.
      * rewrite Nat.add_1_r, <- Hx1.
        destruct ts as [| t' ts']; cbn; [exact Hnext | exact Hnext].
    + assert (Hj' : (j < length ts)%nat) by lia.
      specialize (Hrows j Hj'). cbv zeta in Hrows.
      rewrite !Nat.add_succ_r. cbn [nth]. cbn [Nat.add] in Hrows.
      rewrite <- !Nat.add_succ_r in *.
      change (S (S j) <? S (length ts))%nat with (S j <? length ts)%nat.
      rewrite !Nat.add_succ_r in *. exact Hrows.
Qed.

Lemma preallocated_allocated (n : nat) : allocated (preallocated n) n.
Proof. unfold allocated, preallocated. cbn. rewrite !repeat_length. auto. Qed.

(** The rows that the loop records, and the state it ends in. *)
Lemma simulation_rows (x0 : vec) (ts : vec) (i : nat) :
  (i < length ts)%nat ->
  let r := simulation get_state get_effort x0 ts in
  let h := snd r in
  let x := nth i (x_history h) [] in
  let xref := reference_state (get_state (nth i ts 0)) in
  let uref := reference_effort (get_effort (nth i ts 0)) in
  let u := applied_control xref uref x in
  nth 0 (x_history h) [] = x0
  /\ nth i (xref_history h) [] = xref
  /\ nth i (u_history h) [] = u
  /\ ((S i < length ts)%nat ->
      nth (S i) (x_history h) [] = call_dynamics x u dt)
  /\ (S i = length ts -> fst r = call_dynamics x u dt).
Proof.
  intros Hi. cbv zeta. unfold simulation, enumerate.
  pose proof (simulation_loop ts 0 x0 (preallocated (length ts)) (length ts)
                (preallocated_allocated _) ltac:(lia)) as H.
  cbv zeta in H. fold step.
  set (r := fold_left step (combine (seq 0 (length ts)) ts)
              (x0, preallocated (length ts))) in *.
  destruct H as (_ & _ & H0 & Hrows).
  specialize (Hrows i Hi). cbv zeta in Hrows. cbn [Nat.add] in Hrows.
  destruct Hrows as [Hrow Hstep]. unfold row in Hrow.
  injection Hrow as Hxref _ Hu.
  split; [destruct ts; [simpl in Hi; lia | exact H0] |].
  split; [exact Hxref |]. split; [exact Hu |]. split.
  - intros Hlt. apply Nat.ltb_lt in Hlt. rewrite Hlt in Hstep. exact Hstep.
  - intros He. assert (Hge : (S i <? length ts)%nat = false)
      by (apply Nat.ltb_ge; lia).
    rewrite Hge in Hstep. exact Hstep.
Qed.

(** C5. At every step [i] of the tracking loop, the recorded reference is
    the planner state with a zero lateral velocity inserted (and the effort
    with a zero lateral force), the recorded control is the gain at the
    recorded true state applied to the error between reference and true
    state plus the reference effort, and the next true state is the step of
    Model B from the true state under that control and [dt]. *)
Theorem simulation_tracks (x0 : vec) (ts : vec) (i : nat) :
  (i < length ts)%nat ->
  let r := simulation get_state get_effort x0 ts in
  let h := snd r in
  let x := nth i (x_history h) [] in
  let xplan := get_state (nth i ts 0) in
  let uplan := get_effort (nth i ts 0) in
  let xref := [xplan@[0]; xplan@[1]; xplan@[2]; xplan@[3]; 0; xplan@[4]] in
  let uref := [uplan@[0]; 0; uplan@[1]] in
  let u := add (dotv (snd (ModelB.lqr x)) (erf xref x)) uref in
  nth 0 (x_history h) [] = x0
  /\ nth i (xref_history h) [] = xref
  /\ nth i (u_history h) [] = u
  /\ ((S i < length ts)%nat ->
      nth (S i) (x_history h) []
      = fst (ModelB.dynamics 0%nat 1%nat dt (store_of [x; u])))
  /\ (S i = length ts ->
      fst r = fst (ModelB.dynamics 0%nat 1%nat dt (store_of [x; u]))).
Proof.
  intros Hi. exact (simulation_rows x0 ts i Hi).
Qed.

Lemma rest_control (x : vec) :
  length x = 6%nat -> applied_control x [0; 0; 0] x = [0; 0; 0].
Proof.
  intros Hx. unfold applied_control.
  rewrite (proj1 (erf_self_zero x ltac:(lia))), Hx.
  items x. cbn. repeat (f_equal; try ring).
Qed.

Lemma saturated_zero (i : nat) : (i < 3)%nat -> saturated i 0 = 0.
Proof.
  intros Hi. destruct u_max_B_bounds as ([H0 _] & H1 & H2).
  unfold saturated. rewrite Rabs_R0.
  assert (E : i = 0%nat \/ i = 1%nat \/ i = 2%nat) by lia.
  destruct E as [-> | [-> | ->]]; rewrite Rltb_false by lra; reflexivity.
Qed.

Lemma rest_step (a b h dt : R) :
  call_dynamics [a; b; h; 0; 0; 0] [0; 0; 0] dt = [a; b; h; 0; 0; 0].
Proof.
  rewrite call_dynamics_value. cbv zeta.
  unfold saturated_from. cbn [length seq combine map fst snd skipn].
  rewrite !saturated_zero by lia.
  unfold ModelB.drag. cbn. rewrite !Rleb_true by lra. cbn.
  repeat (f_equal; try ring).
Qed.

(** C6, as the code has it. When the start state has zero forward speed and
    zero yaw rate, and the plan answers every query of the loop with that
    state as the reference and zero as the reference effort, every recorded
    true state is the start state. *)
Theorem simulation_holds_at_rest (x0 : vec) (ts : vec) :
  x0@[3] = 0 -> x0@[5] = 0 ->
  (forall t : R, In t ts ->
     reference_state (get_state t) = x0
     /\ reference_effort (get_effort t) = [0; 0; 0]) ->
  forall i : nat, (i < length ts)%nat ->
    nth i (x_history (snd (simulation get_state get_effort x0 ts))) [] = x0.
Proof.
  intros H3 H5 Hplan i. induction i as [| i IH]; intros Hi.
  - apply (simulation_rows x0 ts 0 Hi).
  - assert (Hi' : (i < length ts)%nat) by lia.
    specialize (IH Hi').
    pose proof (simulation_rows x0 ts i Hi') as (_ & _ & _ & Hnext & _).
    rewrite (Hnext Hi), IH.
    destruct (Hplan (nth i ts 0) (nth_In ts 0 Hi')) as [Hxref Huref].
    rewrite Hxref, Huref.
    assert (Hlen : length x0 = 6%nat) by (rewrite <- Hxref; reflexivity).
    rewrite rest_control by exact Hlen.
    assert (H4 : x0@[4] = 0) by (rewrite <- Hxref; reflexivity).
    items x0. cbn in H3, H4, H5. subst. apply rest_step.
Qed.

End Tracking.

Lemma simulation_tracks_witness :
  nth 0 (x_history (snd (simulation (fun _ => [0; 0; 0; 0; 0])
                                     (fun _ => [0; 0]) ModelB.x (t_arr 2))))
      [] = ModelB.x.
Proof.
  apply (simulation_tracks (fun _ => [0; 0; 0; 0; 0]) (fun _ => [0; 0])
           ModelB.x (t_arr 2) 0).
  simpl. lia.
Defined.

Lemma simulation_holds_at_rest_witness :
  nth 1 (x_history (snd (simulation (fun _ => [3; 4; 1; 0; 0])
                                     (fun _ => [0; 0]) [3; 4; 1; 0; 0; 0]
                                     (t_arr 2))))
      [] = [3; 4; 1; 0; 0; 0].
Proof.
  apply (simulation_holds_at_rest (fun _ => [3; 4; 1; 0; 0])
           (fun _ => [0; 0]) [3; 4; 1; 0; 0; 0] (t_arr 2)).
  - reflexivity.
  - reflexivity.
  - intros t _. split; reflexivity.
  - simpl. lia.
Defined.

(** C6, as it is written, fails for a start state that moves: held as the
    reference with zero effort, the start state with forward speed 1 is
    followed by a state 0.03 further along. *)
Lemma simulation_drifts_at_speed :
  let plan_state := fun _ : R => [0; 0; 0; 1; 0] in
  let plan_effort := fun _ : R => [0; 0] in
  let x0 := [0; 0; 0; 1; 0; 0] in
  (forall t : R, reference_state (plan_state t) = x0)
  /\ (forall t : R, reference_effort (plan_effort t) = [0; 0; 0])
  /\ (nth 1 (x_history (snd (simulation plan_state plan_effort x0 (t_arr 2))))
          [])@[0] = 0.03
  /\ nth 1 (x_history (snd (simulation plan_state plan_effort x0 (t_arr 2))))
          [] <> x0.
Proof.
  cbv zeta. split; [reflexivity |]. split; [reflexivity |].
  pose proof (simulation_rows (fun _ : R => [0; 0; 0; 1; 0])
                (fun _ : R => [0; 0]) [0; 0; 0; 1; 0; 0] (t_arr 2) 0
                ltac:(simpl; lia)) as (H0 & _ & _ & Hnext & _).
  specialize (Hnext ltac:(simpl; lia)). rewrite H0 in Hnext.
  change (reference_state [0; 0; 0; 1; 0]) with [0; 0; 0; 1; 0; 0] in Hnext.
  change (reference_effort [0; 0]) with [0; 0; 0] in Hnext.
  rewrite rest_control in Hnext by reflexivity.
  rewrite call_dynamics_value in Hnext. cbv zeta in Hnext.
  assert (E : (nth 1 (x_history (snd (simulation (fun _ : R => [0; 0; 0; 1; 0])
                 (fun _ : R => [0; 0]) [0; 0; 0; 1; 0; 0] (t_arr 2)))) [])@[0]
              = 0.03).
  { rewrite Hnext. cbn. rewrite cos_0, sin_0. unfold dt. lra. }
  split; [exact E |].
  intros C. rewrite C in E. cbn in E. lra.
Qed.

(** ** The sampling heuristic *)

Section Sampling.

Lemma zip_with_length {A B C : Type} (f : A -> B -> C) (a : list A) (b : list B) :
  length (zip_with f a b) = Nat.min (length a) (length b).
Proof.
  revert b. induction a as [| x a IH]; intros [| y b]; simpl; auto.
Qed.

Lemma snap_length (goal : vec) (choices : list bool) :
  forall (k : nat) (xrand : vec),
    length (snap goal k choices xrand) = length xrand.
Proof.
  induction choices as [| b bs IH]; intros k xrand; [reflexivity |].
  unfold snap in *. cbn [length seq combine fold_left].
  rewrite IH. destruct b; [apply set_nth_length | reflexivity].
Qed.

Lemma snap_below (goal : vec) (choices : list bool) :
  forall (k : nat) (xrand : vec) (i : nat),
    (i < k)%nat -> (snap goal k choices xrand)@[i] = xrand@[i].
Proof.
  induction choices as [| b bs IH]; intros k xrand i Hi; [reflexivity |].
  unfold snap in *. cbn [length seq combine fold_left].
  rewrite IH by lia. destruct b; [| reflexivity].
  apply nth_set_nth_other. lia.
Qed.

Lemma snap_chosen (goal : vec) (choices : list bool) :
  forall (k : nat) (xrand : vec) (j : nat),
    nth j choices false = true -> (k + j < length xrand)%nat ->
    (snap goal k choices xrand)@[k + j] = goal@[k + j].
Proof.
  induction choices as [| b bs IH]; intros k xrand j Hj Hlen.
  - destruct j; discriminate Hj.
  - destruct j as [| j].
    + cbn in Hj. subst b. rewrite Nat.add_0_r in *.
      change (snap goal k (true :: bs) xrand)
        with (snap goal (S k) bs (set_item xrand k goal@[k])).
      rewrite snap_below by lia.
      apply nth_set_nth_same. exact Hlen.
    + cbn [nth] in Hj. rewrite Nat.add_succ_r in *.
      change (snap goal k (b :: bs) xrand)
        with (snap goal (S k) bs (if b then set_item xrand k goal@[k] else xrand)).
      apply (IH (S k)); [exact Hj |].
      destruct b; [unfold set_item; rewrite set_nth_length |]; cbn; lia.
Qed.

Lemma greater_chosen (bias : vec) (r : R) (i : nat) :
  (i < length bias)%nat -> r < bias@[i] ->
  nth i (greater bias r) false = true.
Proof.
  intros Hi Hr. unfold greater.
  rewrite (nth_indep _ false (Rltb r 0)) by (rewrite length_map; exact Hi).
  rewrite map_nth. apply Rltb_true. exact Hr.
Qed.

Variable sampling_bias : vec.
Variable planner : Planner.

Hypothesis goal_shape : length (planner_goal planner) = ModelA.nstates.
Hypothesis spans_shape : length (search_buffer_spans planner) = ModelA.nstates.
Hypothesis offsets_shape :
  length (search_buffer_offsets planner) = ModelA.nstates.

(** What [xrand_gen] is on vectors of the right shape. *)
Lemma xrand_gen_unfold (rs : vec) (r n : R) :
  length rs = ModelA.nstates ->
  exists xrand : vec,
    length xrand = ModelA.nstates
    /\ xrand_gen sampling_bias planner rs r n
       = set_item (snap (planner_goal planner) 0 (greater sampling_bias r) xrand)
           2 (arctan2
                (subtract ModelA.goal
                   (nth (argmin (costs_to_go planner (planner_goal planner)))
                        (tree_state planner) []))@[1]
                (subtract ModelA.goal
                   (nth (argmin (costs_to_go planner (planner_goal planner)))
                        (tree_state planner) []))@[0]
              + deg2rad 30 * n).
Proof.
  intros Hrs. eexists. split; [| reflexivity].
  unfold add, multiply, times, abs, subtract.
  rewrite !zip_with_length, !length_map, !zip_with_length.
  rewrite goal_shape, spans_shape, offsets_shape, Hrs. reflexivity.
Qed.

(** The heading of the sample is the bearing to the goal plus noise, whatever
    the bias of the heading channel. *)
Lemma xrand_gen_heading (rs : vec) (r n : R) :
  length rs = ModelA.nstates ->
  (xrand_gen sampling_bias planner rs r n)@[2]
  = arctan2
      (subtract ModelA.goal
         (nth (argmin (costs_to_go planner (planner_goal planner)))
              (tree_state planner) []))@[1]
      (subtract ModelA.goal
         (nth (argmin (costs_to_go planner (planner_goal planner)))
              (tree_state planner) []))@[0]
    + deg2rad 30 * n.
Proof.
  intros Hrs. destruct (xrand_gen_unfold rs r n Hrs) as (xrand & Hlen & ->).
  apply nth_set_nth_same. rewrite snap_length, Hlen.
  unfold ModelA.nstates. lia.
Qed.

(** C7, as the code has it. For every channel other than the heading whose
    bias is 1, and for every outcome of the draws, the sample has the goal's
    value in that channel. *)
Theorem xrand_gen_snaps_to_goal (rs : vec) (r n : R) (i : nat) :
  length rs = ModelA.nstates ->
  (i < length sampling_bias)%nat -> (i < ModelA.nstates)%nat ->
  i <> 2%nat ->
  sampling_bias@[i] = 1 ->
  0 <= r < 1 ->
  (xrand_gen sampling_bias planner rs r n)@[i] = (planner_goal planner)@[i].
Proof.
  intros Hrs Hi Hn Hi2 Hbias Hr.
  destruct (xrand_gen_unfold rs r n Hrs) as (xrand & Hlen & ->).
  unfold set_item, item. rewrite nth_set_nth_other by congruence.
  apply (snap_chosen (planner_goal planner) (greater sampling_bias r) 0 xrand i).
  - apply greater_chosen; [exact Hi | rewrite Hbias; lra].
  - rewrite Hlen. exact Hn.
Qed.

End Sampling.

Lemma xrand_gen_snaps_to_goal_witness :
  (xrand_gen [1; 0.3; 0; 0; 0] start_planner [0.2; 0.9; 0.5; 0.5; 0.5] 0.7 0)@[0]
  = 40.
Proof.
  apply (xrand_gen_snaps_to_goal [1; 0.3; 0; 0; 0] start_planner
           eq_refl eq_refl eq_refl [0.2; 0.9; 0.5; 0.5; 0.5] 0.7 0 0).
  - reflexivity.
  - simpl. lia.
  - unfold ModelA.nstates. lia.
  - discriminate.
  - reflexivity.
  - lra.
Defined.

(** C7, as it is written, fails for the heading channel: with bias 1 on the
    heading, the sample's heading is the bearing from the tree to the goal
    (an eighth of a turn here), not the goal's heading (a quarter turn). *)
Lemma xrand_gen_heading_not_goal :
  let bias := [0; 0; 1; 0; 0] in
  let sample := xrand_gen bias start_planner [0.5; 0.5; 0.5; 0.5; 0.5] 0 0 in
  bias@[2] = 1
  /\ sample@[2] = PI / 4
  /\ (planner_goal start_planner)@[2] = PI / 2
  /\ sample@[2] <> (planner_goal start_planner)@[2].
Proof.
  cbv zeta. pose proof PI_RGT_0 as HPI.
  assert (Hs : (xrand_gen [0; 0; 1; 0; 0] start_planner
                  [0.5; 0.5; 0.5; 0.5; 0.5] 0 0)@[2] = PI / 4).
  { rewrite (xrand_gen_heading [0; 0; 1; 0; 0] start_planner
               eq_refl eq_refl eq_refl) by reflexivity.
    cbn. unfold deg2rad. rewrite arctan2_pos by lra.
    replace ((40 - 0) / (40 - 0)) with 1 by field.
    rewrite atan_1. lra. }
  assert (Hg : (planner_goal start_planner)@[2] = PI / 2).
  { cbn. unfold deg2rad. field. }
  split; [reflexivity |]. split; [exact Hs |]. split; [exact Hg |].
  rewrite Hs, Hg. lra.
Qed.

(** ** The hard constraint *)

Section Feasibility.

Lemma sqrt_above (r q : R) : 0 <= r -> r * r < q -> r < sqrt q.
Proof.
  intros Hr Hq. rewrite <- (sqrt_square r Hr).
  apply sqrt_lt_1_alt. split; [apply Rle_0_sqr | exact Hq].
Qed.

Lemma sqrt_below (r q : R) : 0 <= r -> q <= r * r -> sqrt q <= r.
Proof.
  intros Hr Hq. destruct (Rle_lt_dec 0 q) as [H0 | H0].
  - rewrite <- (sqrt_square r Hr). apply sqrt_le_1_alt. exact Hq.
  - rewrite sqrt_neg_0 by lra. exact Hr.
Qed.

(** The grid of vehicle points has the points that [np.mgrid] gives: the
    last of each axis lies before the end of its slice and the next would
    not. *)
Lemma vps_axis_counts :
  let stop_x := (ModelA.boat_length + ModelA.boat_buffer) / 2
                + ModelA.vps_spacing in
  let stop_y := (ModelA.boat_width + ModelA.boat_buffer) / 2
                + ModelA.vps_spacing in
  ModelA.vps_axis_x@[8] < stop_x <= ModelA.vps_axis_x@[8] + ModelA.vps_spacing
  /\ ModelA.vps_axis_y@[5] < stop_y
                          <= ModelA.vps_axis_y@[5] + ModelA.vps_spacing
  /\ length ModelA.vps_axis_x = 9%nat /\ length ModelA.vps_axis_y = 6%nat.
Proof.
  unfold ModelA.vps_axis_x, ModelA.vps_axis_y, ModelA.boat_length,
    ModelA.boat_width, ModelA.boat_buffer, ModelA.vps_spacing.
  cbn. repeat split; lra.
Qed.

Lemma any_within (verts : matrix) (ob : vec) :
  any (map (fun d => Rleb d (2 * ob@[2]))
           (norm_rows (sub_rows verts (firstn 2 ob)))) = true
  <-> exists p, In p verts /\ norm (subtract p (firstn 2 ob)) <= 2 * ob@[2].
Proof.
  unfold any, norm_rows, sub_rows. rewrite !map_map, existsb_exists. split.
  - intros (b & Hb & ->). apply in_map_iff in Hb as (p & Hp & Hin).
    exists p. split; [exact Hin |].
    destruct (Rleb_cases (norm (subtract p (firstn 2 ob))) (2 * ob@[2]))
      as [[H _] | [_ H]]; [exact H | congruence].
  - intros (p & Hin & Hp). exists true. split; [| reflexivity].
    apply in_map_iff. exists p. split; [apply Rleb_true; exact Hp | exact Hin].
Qed.

(** The loop over the obstacles answers [False] exactly when some point is
    within twice the radius of some obstacle. *)
Lemma collision_free_false (verts : matrix) (obs : list vec) :
  collision_free verts obs = false <-> collides verts obs.
Proof.
  unfold collides. induction obs as [| ob obs IH]; cbn [collision_free].
  - split; [discriminate | intros (ob & p & [] & _)].
  - destruct (any _) eqn:E.
    + split; [intros _ | reflexivity].
      apply any_within in E as (p & Hin & Hp).
      exists ob, p. split; [left; reflexivity | split; assumption].
    + rewrite IH. split.
      * intros (ob' & p & Hob & Hin & Hp).
        exists ob', p. split; [right; exact Hob | split; assumption].
      * intros (ob' & p & [<- | Hob] & Hin & Hp).
        -- assert (Ht : any (map (fun d => Rleb d (2 * ob@[2]))
                        (norm_rows (sub_rows verts (firstn 2 ob)))) = true)
             by (apply any_within; exists p; split; assumption).
           congruence.
        -- exists ob', p. split; [exact Hob | split; assumption].
Qed.

(** What [is_feasible] decides: it is [False] exactly when one of the
    checked points is within twice the radius of some obstacle; the control
    plays no part. *)
Lemma is_feasible_false (obs : list vec) (x u : vec) :
  is_feasible obs x u = false <-> collides (checked_points x) obs.
Proof. apply collision_free_false. Qed.

Lemma norm_first (a b r : R) : norm [a; b] <= r -> a * a <= r * r.
Proof.
  intros H. unfold norm in H. cbn in H.
  destruct (Rle_lt_dec (a * a) (r * r)) as [Hle | Hlt]; [exact Hle |].
  pose proof (sqrt_pos (a * a + (b * b + 0))) as Hpos.
  assert (Hr : 0 <= r) by lra.
  pose proof (sqrt_above r (a * a + (b * b + 0)) Hr ltac:(nra)). lra.
Qed.

Lemma slot_29_29 : obstacle_slot [29; 29] = [29; 29; 1].
Proof.
  unfold obstacle_slot, ModelA.boat_length, ModelA.goal, ModelA.x, norm.
  cbn. rewrite !Rltb_true; [reflexivity | |]; apply sqrt_above; lra.
Qed.

(** C3. For an obstacle of radius 1 at (29, 29) and the vehicle at
    (31.5, 29) with heading 0, a point of the footprint in the world frame
    is within twice the radius of the obstacle, and [is_feasible] answers
    [True]: the rotated vehicle points it measures from are not moved to the
    vehicle's position. *)
Theorem is_feasible_misses_footprint :
  let obs := [obstacle_slot [29; 29]] in
  let x := [31.5; 29; 0; 0; 0] in
  obs = [[29; 29; 1]]
  /\ collides (world_footprint x) obs
  /\ is_feasible obs x [0; 0] = true.
Proof.
  cbv zeta. rewrite slot_29_29. split; [reflexivity |]. split.
  - exists [29; 29; 1], (nth 15 (world_footprint [31.5; 29; 0; 0; 0]) []).
    split; [left; reflexivity |]. split.
    + apply nth_In. cbn. lia.
    + unfold norm. cbn. rewrite cos_0, sin_0.
      unfold ModelA.boat_length, ModelA.boat_width, ModelA.boat_buffer,
        ModelA.vps_spacing.
      apply sqrt_below; lra.
  - apply Bool.not_false_iff_true. intros E.
    apply is_feasible_false in E. destruct E as (ob & p & Hob & Hp & Hd).
    destruct Hob as [<- | []].
    unfold checked_points, vstack in Hp.
    cbn in Hp. rewrite cos_0, sin_0 in Hp.
    unfold ModelA.boat_length, ModelA.boat_width, ModelA.boat_buffer,
      ModelA.vps_spacing in Hp.
    repeat (destruct Hp as [<- | Hp];
            [cbn [subtract zip_with firstn item nth] in Hd;
             apply norm_first in Hd; lra |]).
    exact Hp.
Qed.

End Feasibility.

(** ** More on Model A's dynamics *)

Section ModelA_more.
Import ModelA.

Lemma D_A_value : D@[0] = u_max@[0] / 1.1 /\ D@[1] = u_max@[1] / 0.2.
Proof.
  destruct u_max_pos as [H0 H1]. unfold D. cbn in *.
  split; apply Rabs_pos_eq; apply Rlt_le; apply Rdiv_lt_0_compat; lra.
Qed.

(** The step of Model A, item by item. *)
Lemma dynamics_A_value (x0 x1 x2 x3 x4 u0 u1 dt : R) :
  dynamics [x0; x1; x2; x3; x4] [u0; u1] dt
  = let s0 := saturate u0 (- u_max@[0] / 10) u_max@[0] in
    let s1 := saturate u1 (- u_max@[1]) u_max@[1] in
    let v := x3 + 1 / m * (s0 - D@[0] * x3) * dt in
    [x0 + cos x2 * x3 * dt; x1 + sin x2 * x3 * dt; x2 + x4 * dt;
     if Rltb v 0 then 0 else v;
     x4 + 1 / I * (s1 - D@[1] * x4) * dt].
Proof.
  assert (Hd : dynamics [x0; x1; x2; x3; x4] [u0; u1] dt
    = let us := clip [u0; u1] [- u_max@[0] / 10; - u_max@[1]] u_max in
      let xnext := add [x0; x1; x2; x3; x4]
        (scale ([cos x2 * x3; sin x2 * x3; x4]
                ++ multiply invM (subtract us (multiply D [x3; x4]))) dt) in
      if Rltb xnext@[3] 0 then set_item xnext 3 0 else xnext)
    by reflexivity.
  rewrite Hd, clip_u_max. cbv zeta.
  set (s0 := saturate u0 _ _). set (s1 := saturate u1 _ _).
  change (D@[0]) with (nth 0 D 0). change (D@[1]) with (nth 1 D 0).
  unfold D, u_max. cbn -[Rltb].
  match goal with
  | |- context [Rltb ?a 0] => destruct (Rltb a 0)
  end; reflexivity.
Qed.

Lemma saturate_inside (a lo hi : R) :
  lo <= a <= hi -> saturate a lo hi = a.
Proof.
  intros [Hl Hh]. unfold saturate.
  rewrite (Rltb_false a lo Hl), (Rltb_false hi a Hh). reflexivity.
Qed.

(** X1. At rest and without control, Model A stays where it is. *)
Theorem dynamics_A_rest (a b h dt : R) :
  dynamics [a; b; h; 0; 0] [0; 0] dt = [a; b; h; 0; 0].
Proof.
  destruct u_max_pos as [H0 H1].
  rewrite dynamics_A_value. cbv zeta.
  rewrite !saturate_inside by lra.
  match goal with
  | |- context [Rltb ?v 0] => replace v with 0 by (unfold m; field)
  end.
  rewrite Rltb_false by lra.
  repeat (f_equal; try (unfold I; field)).
Qed.

(** X2. Model A never backs up: from zero forward speed, a thrust that is
    zero or negative leaves the forward speed at zero and the position where
    it is, for every step of time that is not negative. *)
Theorem dynamics_A_no_reverse (a b h w u0 u1 dt : R) :
  u0 <= 0 -> 0 <= dt ->
  let xnext := dynamics [a; b; h; 0; w] [u0; u1] dt in
  xnext@[3] = 0 /\ xnext@[0] = a /\ xnext@[1] = b.
Proof.
  intros Hu Hdt. destruct u_max_pos as [H0 H1]. cbv zeta.
  rewrite dynamics_A_value. cbv zeta.
  pose proof (saturate_bounds u0 (- u_max@[0] / 10) u_max@[0] ltac:(lra))
    as [Hlo Hhi].
  assert (Hs : saturate u0 (- u_max@[0] / 10) u_max@[0] <= 0).
  { unfold saturate.
    destruct (Rltb_cases u0 (- u_max@[0] / 10)) as [[Hc ->] | [Hc ->]];
      [lra |].
    rewrite Rltb_false by lra. exact Hu. }
  set (s0 := saturate u0 _ _) in *.
  cbn [item nth]. split; [| split; ring].
  match goal with
  | |- context [Rltb ?v 0] => destruct (Rltb_cases v 0) as [[Hv ->] | [Hv ->]]
  end; [reflexivity |].
  unfold m in *.
  assert (Hp : (s0 - D@[0] * 0) * dt <= 0) by nra.
  lra.
Qed.

Lemma dynamics_A_no_reverse_witness :
  (dynamics [1; 2; 3; 0; 0.1] [-50; 7] 0.1)@[3] = 0.
Proof.
  apply (dynamics_A_no_reverse 1 2 3 0.1 (-50) 7 0.1); lra.
Defined.

(** X3. The top speeds are the equilibrium of full thrust: at forward speed
    1.1 and yaw rate 0.2, a control at or beyond the maximum on both axes
    leaves both speeds unchanged. *)
Theorem dynamics_A_top_speed (a b h u0 u1 dt : R) :
  u_max@[0] <= u0 -> u_max@[1] <= u1 ->
  let xnext := dynamics [a; b; h; vel_max@[0]; vel_max@[1]] [u0; u1] dt in
  xnext@[3] = vel_max@[0] /\ xnext@[4] = vel_max@[1].
Proof.
  intros Hu0 Hu1. destruct u_max_pos as [H0 H1].
  destruct D_A_value as [HD0 HD1]. cbv zeta.
  rewrite dynamics_A_value. cbv zeta.
  assert (Hs0 : saturate u0 (- u_max@[0] / 10) u_max@[0] = u_max@[0]).
  { unfold saturate. rewrite Rltb_false by lra.
    destruct (Rltb_cases u_max@[0] u0) as [[Hc ->] | [Hc ->]]; lra. }
  assert (Hs1 : saturate u1 (- u_max@[1]) u_max@[1] = u_max@[1]).
  { unfold saturate. rewrite Rltb_false by lra.
    destruct (Rltb_cases u_max@[1] u1) as [[Hc ->] | [Hc ->]]; lra. }
  rewrite Hs0, Hs1, HD0, HD1. cbn [item nth vel_max].
  assert (E0 : u_max@[0] - u_max@[0] / 1.1 * 1.1 = 0) by lra.
  assert (E1 : u_max@[1] - u_max@[1] / 0.2 * 0.2 = 0) by lra.
  unfold vel_max. cbn [item nth]. rewrite E0, E1.
  rewrite Rltb_false by lra. split; ring.
Qed.

Lemma dynamics_A_top_speed_witness :
  (dynamics [0; 0; 0; vel_max@[0]; vel_max@[1]] [1000; 2000] 0.1)@[3]
  = vel_max@[0].
Proof.
  apply (dynamics_A_top_speed 0 0 0 1000 2000 0.1).
  - destruct sqrt2_bounds. unfold u_max, thrust_max. cbn. lra.
  - unfold u_max, thrust_max, thrust_lever. cbn. lra.
Defined.

(** X4. For a step of time that is not negative and not longer than the
    time constant of the drag on each axis, Model A keeps the forward speed
    between zero and the top speed, and the yaw rate within the top yaw
    rate. *)
Theorem dynamics_A_speed_bounded (a b h v w u0 u1 dt : R) :
  0 <= dt -> dt * D@[0] <= m -> dt * D@[1] <= I ->
  0 <= v <= vel_max@[0] -> - vel_max@[1] <= w <= vel_max@[1] ->
  let xnext := dynamics [a; b; h; v; w] [u0; u1] dt in
  0 <= xnext@[3] <= vel_max@[0]
  /\ - vel_max@[1] <= xnext@[4] <= vel_max@[1].
Proof.
  intros Hdt Hk0 Hk1 Hv Hw. destruct u_max_pos as [H0 H1].
  destruct D_A_value as [HD0 HD1]. cbv zeta.
  rewrite dynamics_A_value. cbv zeta.
  pose proof (saturate_bounds u0 (- u_max@[0] / 10) u_max@[0] ltac:(lra))
    as [Hlo0 Hhi0].
  pose proof (saturate_bounds u1 (- u_max@[1]) u_max@[1] ltac:(lra))
    as [Hlo1 Hhi1].
  set (s0 := saturate u0 _ _) in *. set (s1 := saturate u1 _ _) in *.
  rewrite HD0, HD1 in *. unfold vel_max, m, I in *. cbn [item nth] in *.
  set (U0 := u_max@[0]) in *. set (U1 := u_max@[1]) in *.
  assert (HU0 : U0 = U0 / 1.1 * 1.1) by lra.
  assert (HU1 : U1 = U1 / 0.2 * 0.2) by lra.
  set (d0 := U0 / 1.1) in *. set (d1 := U1 / 0.2) in *.
  assert (Hd0 : 0 < d0) by lra. assert (Hd1 : 0 < d1) by lra.
  clearbody d0 d1. clearbody s0 s1. clearbody U0 U1. clear HD0 HD1.
  split.
  - match goal with
    | |- context [Rltb ?z 0] => destruct (Rltb_cases z 0) as [[Hz ->] | [Hz ->]]
    end; [lra |].
    split; [exact Hz |].
    assert (Hup : (s0 - d0 * v) * dt <= (d0 * 1.1 - d0 * v) * dt)
      by (apply Rmult_le_compat_r; lra).
    assert (Hc : (d0 * dt) * (1.1 - v) <= 500 * (1.1 - v))
      by (apply Rmult_le_compat_r; lra).
    lra.
  - assert (Hup : (s1 - d1 * w) * dt <= (d1 * 0.2 - d1 * w) * dt)
      by (apply Rmult_le_compat_r; lra).
    assert (Hdn : (- (d1 * 0.2) - d1 * w) * dt <= (s1 - d1 * w) * dt)
      by (apply Rmult_le_compat_r; lra).
    assert (Hc : (d1 * dt) * (0.2 - w) <= 500 * (0.2 - w))
      by (apply Rmult_le_compat_r; lra).
    assert (Hc' : (d1 * dt) * (0.2 + w) <= 500 * (0.2 + w))
      by (apply Rmult_le_compat_r; lra).
    lra.
Qed.

Lemma dynamics_A_speed_bounded_witness :
  0 <= (dynamics [0; 0; 0; 1; 0.1] [300; -2000] 0.03)@[3] <= vel_max@[0].
Proof.
  destruct sqrt2_bounds as [Hs1 Hs2]. destruct D_A_value as [HD0 HD1].
  apply (dynamics_A_speed_bounded 0 0 0 1 0.1 300 (-2000) 0.03).
  - lra.
  - rewrite HD0. unfold u_max, thrust_max, m. cbn. lra.
  - rewrite HD1. unfold u_max, thrust_max, thrust_lever, I. cbn. lra.
  - unfold vel_max. cbn. lra.
  - unfold vel_max. cbn. lra.
Defined.

(** X5. Model A moves along its heading: the position moves by the forward
    speed times the step of time, in the direction of the heading, and the
    heading turns by the yaw rate times the step. *)
Theorem dynamics_A_displacement (x u : vec) (dt : R) :
  length x = 5%nat -> length u = 2%nat ->
  let xnext := dynamics x u dt in
  let dx := xnext@[0] - x@[0] in
  let dy := xnext@[1] - x@[1] in
  dx * dx + dy * dy = (x@[3] * dt) * (x@[3] * dt)
  /\ dx * sin x@[2] = dy * cos x@[2]
  /\ xnext@[2] = x@[2] + x@[4] * dt.
Proof.
  intros Hx Hu. items x. items u. cbv zeta.
  rewrite dynamics_A_value. cbv zeta. cbn [item nth].
  pose proof (sin2_cos2 x2) as Hsc. unfold Rsqr in Hsc.
  split; [| split; ring].
  replace (x0 + cos x2 * x3 * dt - x0) with (cos x2 * (x3 * dt)) by ring.
  replace (x1 + sin x2 * x3 * dt - x1) with (sin x2 * (x3 * dt)) by ring.
  transitivity ((sin x2 * sin x2 + cos x2 * cos x2) * (x3 * dt * (x3 * dt)));
    [ring | rewrite Hsc; ring].
Qed.

Lemma dynamics_A_displacement_witness :
  (dynamics [0; 0; 1; 1; 0.1] [0; 0] 0.1)@[2] = 1 + 0.1 * 0.1.
Proof.
  apply (dynamics_A_displacement [0; 0; 1; 1; 0.1] [0; 0] 0.1); reflexivity.
Defined.

End ModelA_more.

(** ** The control laws of the two policies *)

Section Policy_more.

(** X6. Model A's gain applied to an error [e] is a proportional-derivative
    law in the body frame: the thrust is 120 times the position error along
    the heading plus 120 times the speed error, the torque is 600 times the
    heading error plus 600 times the yaw-rate error; a position error across
    the heading calls for no control at all. *)
Theorem lqr_A_control_law (x e : vec) :
  length e = 5%nat ->
  dotv (snd (ModelA.lqr x)) e
  = [120 * (cos x@[2] * e@[0] + sin x@[2] * e@[1]) + 120 * e@[3];
     600 * e@[2] + 600 * e@[4]]
  /\ forall k : R,
       dotv (snd (ModelA.lqr x)) [- k * sin x@[2]; k * cos x@[2]; 0; 0; 0]
       = [0; 0].
Proof.
  intros He. items e. split.
  - cbn. repeat (f_equal; try ring).
  - intros k. cbn. repeat (f_equal; try ring).
Qed.

Lemma lqr_A_control_law_witness :
  dotv (snd (ModelA.lqr [0; 0; 0; 0; 0])) [1; 2; 3; 4; 5]
  = [120 * (cos 0 * 1 + sin 0 * 2) + 120 * 4; 600 * 3 + 600 * 5].
Proof.
  apply (lqr_A_control_law [0; 0; 0; 0; 0] [1; 2; 3; 4; 5]). reflexivity.
Defined.

(** X7. Model B's gain applied to an error [e] is a proportional-derivative
    law on the error turned into the body frame, and the force it asks for a
    pure position error is 120 times as long as that error, whatever the
    heading. *)
Theorem lqr_B_control_law (x e : vec) :
  length e = 6%nat ->
  dotv (snd (ModelB.lqr x)) e
  = [120 * (cos x@[2] * e@[0] + sin x@[2] * e@[1]) + 120 * e@[3];
     120 * (- sin x@[2] * e@[0] + cos x@[2] * e@[1]) + 120 * e@[4];
     300 * e@[2] + 200 * e@[5]]
  /\ forall a b : R,
       let f := dotv (snd (ModelB.lqr x)) [a; b; 0; 0; 0; 0] in
       f@[0] * f@[0] + f@[1] * f@[1] = 120 * 120 * (a * a + b * b)
       /\ f@[2] = 0.
Proof.
  intros He. items e. split.
  - cbn. repeat (f_equal; try ring).
  - intros a b. cbn. pose proof (sin2_cos2 x@[2]) as Hsc. unfold Rsqr in Hsc.
    split; [| ring].
    set (c := cos x@[2]) in *. set (s := sin x@[2]) in *.
    transitivity (120 * 120 * ((s * s + c * c) * (a * a + b * b)));
      [unfold item; ring | rewrite Hsc; ring].
Qed.

Lemma lqr_B_control_law_witness :
  dotv (snd (ModelB.lqr [0; 0; 0; 0; 0; 0])) [1; 2; 3; 4; 5; 6]
  = [120 * (cos 0 * 1 + sin 0 * 2) + 120 * 4;
     120 * (- sin 0 * 1 + cos 0 * 2) + 120 * 5;
     300 * 3 + 200 * 6].
Proof.
  apply (lqr_B_control_law [0; 0; 0; 0; 0; 0] [1; 2; 3; 4; 5; 6]).
  reflexivity.
Defined.

End Policy_more.

(** ** More on the error metric *)

Section Error_metric_more.

Lemma nth_zip_with {A B C : Type} (f : A -> B -> C) (a : list A) (b : list B)
      (i : nat) (da : A) (db : B) (dc : C) :
  (i < length a)%nat -> (i < length b)%nat ->
  nth i (zip_with f a b) dc = f (nth i a da) (nth i b db).
Proof.
  revert b i. induction a as [| x a IH]; intros [| y b] [| i] Ha Hb;
    simpl in *; try lia; [reflexivity | apply IH; lia].
Qed.

Lemma sin_full_turns (a : R) (k : Z) : sin (a + 2 * IZR k * PI) = sin a.
Proof.
  destruct (Z.leb_spec 0 k) as [Hk | Hk].
  - rewrite <- (Z2Nat.id k Hk), <- INR_IZR_INZ. apply sin_period.
  - rewrite <- (sin_period (a + 2 * IZR k * PI) (Z.to_nat (- k))).
    f_equal. rewrite INR_IZR_INZ, Z2Nat.id by lia. rewrite opp_IZR. ring.
Qed.

Lemma cos_full_turns (a : R) (k : Z) : cos (a + 2 * IZR k * PI) = cos a.
Proof.
  destruct (Z.leb_spec 0 k) as [Hk | Hk].
  - rewrite <- (Z2Nat.id k Hk), <- INR_IZR_INZ. apply cos_period.
  - rewrite <- (cos_period (a + 2 * IZR k * PI) (Z.to_nat (- k))).
    f_equal. rewrite INR_IZR_INZ, Z2Nat.id by lia. rewrite opp_IZR. ring.
Qed.

Lemma erf_heading_value (xgoal x : vec) :
  (3 <= length xgoal)%nat -> (3 <= length x)%nat ->
  (erf xgoal x)@[2]
  = arctan2 (sin xgoal@[2] * cos x@[2] - cos x@[2] * sin x@[2])
            (cos x@[2] * cos x@[2] + sin xgoal@[2] * sin x@[2]).
Proof.
  intros Hg Hx. unfold erf, set_item, item.
  apply nth_set_nth_same. unfold subtract. rewrite zip_with_length. lia.
Qed.

(** X8. The heading channel of the error is an angle in (-PI, PI], whatever
    the two headings are. *)
Theorem erf_heading_in_range (xgoal x : vec) :
  (3 <= length xgoal)%nat -> (3 <= length x)%nat ->
  - PI < (erf xgoal x)@[2] <= PI.
Proof.
  intros Hg Hx. rewrite erf_heading_value by assumption. apply arctan2_range.
Qed.

Lemma erf_heading_in_range_witness :
  - PI < (erf [0; 0; 100; 0; 0] [0; 0; -50; 0; 0])@[2] <= PI.
Proof.
  apply (erf_heading_in_range [0; 0; 100; 0; 0] [0; 0; -50; 0; 0]);
    simpl; lia.
Defined.

(** X9. Every channel of the error other than the heading is the plain
    difference of goal and state, and the error has as many channels as the
    two states. *)
Theorem erf_other_channels (xgoal x : vec) (i : nat) :
  length xgoal = length x -> (i < length x)%nat -> i <> 2%nat ->
  (erf xgoal x)@[i] = xgoal@[i] - x@[i]
  /\ length (erf xgoal x) = length x.
Proof.
  intros Hl Hi H2. unfold erf, set_item. split.
  - unfold item. rewrite nth_set_nth_other by congruence.
    apply nth_zip_with; lia.
  - rewrite set_nth_length. unfold subtract.
    rewrite zip_with_length, Hl. apply Nat.min_id.
Qed.

Lemma erf_other_channels_witness :
  (erf [5; 6; 7; 8; 9] [1; 1; 1; 1; 1])@[3] = 8 - 1.
Proof.
  apply (erf_other_channels [5; 6; 7; 8; 9] [1; 1; 1; 1; 1] 3).
  - reflexivity.
  - simpl. lia.
  - discriminate.
Defined.

(** X10. Whole turns do not count: adding any number of full turns to the
    goal heading, to the current heading, or to both, leaves the heading
    channel of the error as it is. *)
Theorem erf_heading_full_turns (xgoal x : vec) (k j : Z) :
  (3 <= length xgoal)%nat -> (3 <= length x)%nat ->
  (erf (set_item xgoal 2 (xgoal@[2] + 2 * IZR k * PI))
       (set_item x 2 (x@[2] + 2 * IZR j * PI)))@[2]
  = (erf xgoal x)@[2].
Proof.
  intros Hg Hx.
  rewrite !erf_heading_value
    by (try (unfold set_item; rewrite set_nth_length); assumption).
  unfold set_item, item. rewrite !nth_set_nth_same by lia.
  rewrite sin_full_turns, sin_full_turns, cos_full_turns. reflexivity.
Qed.

Lemma erf_heading_full_turns_witness :
  (erf (set_item [0; 0; 1; 0; 0] 2 (1 + 2 * IZR 3 * PI))
       (set_item [0; 0; 2; 0; 0] 2 (2 + 2 * IZR (-1) * PI)))@[2]
  = (erf [0; 0; 1; 0; 0] [0; 0; 2; 0; 0])@[2].
Proof.
  apply (erf_heading_full_turns [0; 0; 1; 0; 0] [0; 0; 2; 0; 0] 3 (-1));
    simpl; lia.
Defined.

(** X11. When the goal heading is the current heading, or differs from it by
    whole turns, the heading channel of the error is exactly zero, whatever
    the other channels are. *)
Theorem erf_same_heading (xgoal x : vec) (k : Z) :
  (3 <= length xgoal)%nat -> (3 <= length x)%nat ->
  xgoal@[2] = x@[2] + 2 * IZR k * PI ->
  (erf xgoal x)@[2] = 0.
Proof.
  intros Hg Hx Hh. rewrite erf_heading_value by assumption.
  rewrite Hh, sin_full_turns.
  replace (sin x@[2] * cos x@[2] - cos x@[2] * sin x@[2]) with 0 by ring.
  replace (cos x@[2] * cos x@[2] + sin x@[2] * sin x@[2]) with 1
    by (pose proof (sin2_cos2 x@[2]) as E; unfold Rsqr in E; lra).
  rewrite arctan2_pos by lra.
  replace (0 / 1) with 0 by field. apply atan_0.
Qed.

Lemma erf_same_heading_witness :
  (erf [9; 9; 1 + 2 * IZR 2 * PI; 9; 9] [0; 0; 1; 0; 0])@[2] = 0.
Proof.
  apply (erf_same_heading [9; 9; 1 + 2 * IZR 2 * PI; 9; 9] [0; 0; 1; 0; 0] 2).
  - simpl. lia.
  - simpl. lia.
  - reflexivity.
Defined.

End Error_metric_more.

(** ** More on the hard constraint *)

Section Feasibility_more.

(** The rotated vehicle points, one for each pair of grid coordinates. *)
Lemma rotated_points (c s : R) :
  transpose (dot [[c; - s]; [s; c]] ModelA.vps)
  = map (fun ab : R * R => [c * fst ab - s * snd ab; s * fst ab + c * snd ab])
        (list_prod ModelA.vps_axis_x ModelA.vps_axis_y).
Proof.
  transitivity
    (map (fun ab : R * R => [c * fst ab + (- s * snd ab + 0);
                             s * fst ab + (c * snd ab + 0)])
         (list_prod ModelA.vps_axis_x ModelA.vps_axis_y));
    [reflexivity |].
  apply map_ext. intros [a b]. cbn [fst snd]. f_equal; [ring | f_equal; ring].
Qed.

Lemma vps_axis_bounds (a b : R) :
  In a ModelA.vps_axis_x -> In b ModelA.vps_axis_y ->
  a * a <= 16 /\ b * b <= 6.25.
Proof.
  unfold ModelA.vps_axis_x, ModelA.vps_axis_y, ModelA.boat_length,
    ModelA.boat_width, ModelA.boat_buffer, ModelA.vps_spacing.
  cbn. intros Ha Hb. split.
  - repeat (destruct Ha as [<- | Ha]; [nra |]). destruct Ha.
  - repeat (destruct Hb as [<- | Hb]; [nra |]). destruct Hb.
Qed.

Lemma checked_points_in (x q : vec) :
  (2 <= length x)%nat ->
  In q (checked_points x)
  <-> q = [x@[0]; x@[1]]
      \/ exists a b : R,
           In a ModelA.vps_axis_x /\ In b ModelA.vps_axis_y
           /\ q = [cos x@[2] * a - sin x@[2] * b;
                   sin x@[2] * a + cos x@[2] * b].
Proof.
  intros Hx. unfold checked_points, vstack. rewrite rotated_points.
  assert (Hpos : firstn 2 x = [x@[0]; x@[1]]).
  { destruct x as [| x0 [| x1 t]]; simpl in Hx; try lia. reflexivity. }
  rewrite Hpos, in_app_iff, in_map_iff. split.
  - intros [([a b] & <- & Hab) | [<- | []]]; [right | left; reflexivity].
    apply in_prod_iff in Hab as [Ha Hb]. exists a, b. auto.
  - intros [-> | (a & b & Ha & Hb & ->)]; [right; left; reflexivity | left].
    exists (a, b). split; [reflexivity | apply in_prod_iff; auto].
Qed.

Lemma is_feasible_points (obs : list vec) (x u : vec) :
  (3 <= length x)%nat ->
  is_feasible obs x u = false
  <-> exists ob q : vec,
        In ob obs
        /\ norm (subtract q (firstn 2 ob)) <= 2 * ob@[2]
        /\ (q = [x@[0]; x@[1]]
            \/ exists a b : R,
                 In a ModelA.vps_axis_x /\ In b ModelA.vps_axis_y
                 /\ q = [cos x@[2] * a - sin x@[2] * b;
                         sin x@[2] * a + cos x@[2] * b]).
Proof.
  intros Hx. rewrite is_feasible_false. unfold collides. split.
  - intros (ob & q & Hob & Hq & Hd). exists ob, q.
    split; [exact Hob |]. split; [exact Hd |].
    apply checked_points_in; [lia | exact Hq].
  - intros (ob & q & Hob & Hd & Hq). exists ob, q.
    split; [exact Hob |]. split; [| exact Hd].
    apply checked_points_in; [lia | exact Hq].
Qed.

(** X12. What [is_feasible] decides: it answers [False] exactly when the
    position itself, or a grid point of the vehicle turned by the heading
    about the origin of the world, is within twice the radius of some
    obstacle. *)
Theorem is_feasible_decides (obs : list vec) (x u : vec) :
  (3 <= length x)%nat ->
  is_feasible obs x u = false
  <-> exists ob q : vec,
        In ob obs
        /\ norm (subtract q (firstn 2 ob)) <= 2 * ob@[2]
        /\ (q = [x@[0]; x@[1]]
            \/ exists a b : R,
                 In a ModelA.vps_axis_x /\ In b ModelA.vps_axis_y
                 /\ q = [cos x@[2] * a - sin x@[2] * b;
                         sin x@[2] * a + cos x@[2] * b]).
Proof. exact (is_feasible_points obs x u). Qed.

Lemma is_feasible_decides_witness :
  is_feasible [] [0; 0; 0; 0; 0] [0; 0] = false
  <-> exists ob q : vec,
        In ob []
        /\ norm (subtract q (firstn 2 ob)) <= 2 * ob@[2]
        /\ (q = [[0; 0; 0; 0; 0]@[0]; [0; 0; 0; 0; 0]@[1]]
            \/ exists a b : R,
                 In a ModelA.vps_axis_x /\ In b ModelA.vps_axis_y
                 /\ q = [cos [0; 0; 0; 0; 0]@[2] * a
                         - sin [0; 0; 0; 0; 0]@[2] * b;
                         sin [0; 0; 0; 0; 0]@[2] * a
                         + cos [0; 0; 0; 0; 0]@[2] * b]).
Proof.
  apply (is_feasible_decides [] [0; 0; 0; 0; 0] [0; 0]). simpl. lia.
Defined.

Lemma norm_nonneg (v : vec) : 0 <= norm v.
Proof. apply sqrt_pos. Qed.

Lemma any_none {A : Type} (f : A -> bool) (l : list A) :
  (forall a, In a l -> f a = false) -> any (map f l) = false.
Proof.
  intros H. unfold any. induction l as [| a l IH]; [reflexivity |].
  cbn. rewrite (H a (or_introl eq_refl)). apply IH.
  intros b Hb. apply H. right. exact Hb.
Qed.

(** X13. An obstacle of negative radius, such as the placeholder that fills
    the empty slots of the grid, plays no part: the answer is the same
    without every such obstacle. *)
Theorem is_feasible_negative_radius (obs : list vec) (x u : vec) :
  is_feasible obs x u
  = is_feasible (filter (fun ob => Rleb 0 ob@[2]) obs) x u
  /\ is_feasible (map (fun _ => times (-9999) [1; 1; 1]) obs) x u = true.
Proof.
  unfold is_feasible. set (verts := vstack _ _). clearbody verts.
  assert (Hneg : forall ob : vec, ob@[2] < 0 ->
            any (map (fun d => Rleb d (2 * ob@[2]))
                     (norm_rows (sub_rows verts (firstn 2 ob)))) = false).
  { intros ob Hr. apply any_none. intros d Hd.
    unfold norm_rows in Hd. apply in_map_iff in Hd as (r & <- & _).
    apply Rleb_false. pose proof (norm_nonneg r). lra. }
  split.
  - induction obs as [| ob obs IH]; [reflexivity |].
    cbn [filter collision_free].
    destruct (Rleb_cases 0 ob@[2]) as [[Hr ->] | [Hr ->]].
    + cbn [collision_free]. rewrite IH. reflexivity.
    + rewrite (Hneg ob Hr). exact IH.
  - induction obs as [| ob obs IH]; [reflexivity |].
    cbn [map collision_free]. rewrite Hneg; [exact IH |].
    cbn. lra.
Qed.

Lemma position_hit (obs : list vec) (ob x u : vec) :
  (2 <= length x)%nat -> In ob obs ->
  norm (subtract [x@[0]; x@[1]] (firstn 2 ob)) <= 2 * ob@[2] ->
  is_feasible obs x u = false.
Proof.
  intros Hx Hob Hd. apply is_feasible_false.
  exists ob, [x@[0]; x@[1]]. split; [exact Hob |]. split; [| exact Hd].
  apply checked_points_in; [exact Hx | left; reflexivity].
Qed.

(** X14. A state whose position is within twice the radius of an obstacle
    is never feasible, whatever its heading and the other obstacles. *)
Theorem is_feasible_position_hit (obs : list vec) (ob x u : vec) :
  (2 <= length x)%nat -> In ob obs ->
  norm (subtract [x@[0]; x@[1]] (firstn 2 ob)) <= 2 * ob@[2] ->
  is_feasible obs x u = false.
Proof. exact (position_hit obs ob x u). Qed.

Lemma is_feasible_position_hit_witness :
  is_feasible [[20; 20; 5]] [20; 20; 0; 0; 0] [0; 0] = false.
Proof.
  apply (is_feasible_position_hit [[20; 20; 5]] [20; 20; 5]
           [20; 20; 0; 0; 0] [0; 0]).
  - simpl. lia.
  - left. reflexivity.
  - unfold norm. cbn. apply sqrt_below; lra.
Defined.

Lemma sqrt_le_sq (q r : R) : 0 <= q -> sqrt q <= r -> q <= r * r.
Proof.
  intros Hq H. destruct (Rle_lt_dec q (r * r)) as [Hle | Hlt]; [exact Hle |].
  pose proof (sqrt_pos q) as Hpos.
  pose proof (sqrt_above r q ltac:(lra) Hlt). lra.
Qed.

Lemma sqrt_gt_sq (q r : R) : 0 <= r -> r < sqrt q -> r * r < q.
Proof.
  intros Hr H. destruct (Rle_lt_dec q (r * r)) as [Hle | Hlt]; [| exact Hlt].
  pose proof (sqrt_below r q Hr Hle). lra.
Qed.

(** A rotated vehicle point is nowhere near an obstacle that is further
    than 12 from the origin. *)
Lemma rotated_point_clear (c s a b p0 p1 : R) :
  c * c + s * s = 1 -> a * a <= 16 -> b * b <= 6.25 ->
  144 < p0 * p0 + p1 * p1 ->
  4 < (c * a - s * b - p0) * (c * a - s * b - p0)
      + (s * a + c * b - p1) * (s * a + c * b - p1).
Proof.
  intros Hcs Ha Hb Hp.
  set (qa := c * a - s * b). set (qb := s * a + c * b).
  assert (Hq : qa * qa + qb * qb = a * a + b * b).
  { subst qa qb.
    transitivity ((c * c + s * s) * (a * a + b * b)); [ring | rewrite Hcs; ring]. }
  clearbody qa qb.
  pose proof (Rle_0_sqr (2 * qa - p0)) as H1.
  pose proof (Rle_0_sqr (2 * qb - p1)) as H2.
  unfold Rsqr in H1, H2. nra.
Qed.

Lemma obstacle_slot_cases (p0 p1 : R) :
  (obstacle_slot [p0; p1] = [p0; p1; 1]
   /\ 144 < (p0 - 40) * (p0 - 40) + (p1 - 40) * (p1 - 40)
   /\ 144 < p0 * p0 + p1 * p1)
  \/ ((obstacle_slot [p0; p1])@[2] < 0
      /\ obstacle_slot [p0; p1] <> [p0; p1; 1]).
Proof.
  unfold obstacle_slot, ModelA.goal, ModelA.x, ModelA.boat_length, norm.
  cbn [firstn subtract zip_with map fold_right].
  destruct (Rltb_cases (2 * 6)
              (sqrt ((p0 - 40) * (p0 - 40) + ((p1 - 40) * (p1 - 40) + 0))))
    as [[Hg ->] | [Hg ->]];
    [destruct (Rltb_cases (2 * 6)
                 (sqrt ((p0 - 0) * (p0 - 0) + ((p1 - 0) * (p1 - 0) + 0))))
       as [[Hs ->] | [Hs ->]] |];
    cbn [andb].
  - left. split; [reflexivity |].
    apply sqrt_gt_sq in Hg; [| lra]. apply sqrt_gt_sq in Hs; [| lra].
    split; lra.
  - right. cbn. split; [lra |]. intros C. injection C as _ _ C. lra.
  - right. cbn. split; [lra |]. intros C. injection C as _ _ C. lra.
Qed.

Lemma generated_field (ps : list vec) (x u : vec) :
  (forall p : vec, In p ps -> length p = 2%nat) -> (3 <= length x)%nat ->
  is_feasible (map obstacle_slot ps) x u = false
  <-> exists p : vec,
        In p ps /\ obstacle_slot p = p ++ [1]
        /\ norm (subtract [x@[0]; x@[1]] p) <= 2.
Proof.
  intros Hps Hx. split.
  - intros H. apply is_feasible_points in H; [| exact Hx].
    destruct H as (ob & q & Hob & Hd & Hq).
    apply in_map_iff in Hob as (p & <- & Hp).
    pose proof (Hps p Hp) as Hlen.
    destruct p as [| p0 [| p1 [| p2 t]]]; try discriminate Hlen.
    destruct (obstacle_slot_cases p0 p1) as [(Hk & Hg & Hs) | [Hr _]].
    + rewrite Hk in Hd. cbn [firstn item nth] in Hd.
      destruct Hq as [-> | (a & b & Ha & Hb & ->)].
      * exists [p0; p1]. split; [exact Hp |]. split; [exact Hk | lra].
      * exfalso. destruct (vps_axis_bounds a b Ha Hb) as [Ha2 Hb2].
        pose proof (sin2_cos2 x@[2]) as Hsc. unfold Rsqr in Hsc.
        pose proof (rotated_point_clear (cos x@[2]) (sin x@[2]) a b p0 p1
                      ltac:(lra) Ha2 Hb2 Hs) as Hfar.
        unfold norm in Hd. cbn [subtract zip_with map fold_right] in Hd.
        apply sqrt_le_sq in Hd; [lra |].
        rewrite Rplus_0_r. apply Rplus_le_le_0_compat; apply Rle_0_sqr.
    + exfalso. pose proof (norm_nonneg (subtract q (firstn 2 (obstacle_slot [p0; p1])))).
      lra.
  - intros (p & Hp & Hk & Hd).
    pose proof (Hps p Hp) as Hlen.
    destruct p as [| p0 [| p1 [| p2 t]]]; try discriminate Hlen.
    apply (position_hit _ (obstacle_slot [p0; p1]));
      [lia | apply in_map; exact Hp |].
    rewrite Hk. cbn [app firstn item nth]. lra.
Qed.

(** X15. For an obstacle field that the program can generate (every slot
    filled by [obstacle_slot]), the vehicle points never decide: a state is
    infeasible exactly when its bare position is within 2 of an obstacle
    that was kept, whatever its heading. *)
Theorem is_feasible_generated_field (ps : list vec) (x u : vec) :
  (forall p : vec, In p ps -> length p = 2%nat) -> (3 <= length x)%nat ->
  is_feasible (map obstacle_slot ps) x u = false
  <-> exists p : vec,
        In p ps /\ obstacle_slot p = p ++ [1]
        /\ norm (subtract [x@[0]; x@[1]] p) <= 2.
Proof. exact (generated_field ps x u). Qed.

Lemma is_feasible_generated_field_witness :
  is_feasible (map obstacle_slot [[29; 29]]) [30; 29; 1; 0; 0] [0; 0] = false
  <-> exists p : vec,
        In p [[29; 29]] /\ obstacle_slot p = p ++ [1]
        /\ norm (subtract [[30; 29; 1; 0; 0]@[0]; [30; 29; 1; 0; 0]@[1]] p)
           <= 2.
Proof.
  apply (is_feasible_generated_field [[29; 29]] [30; 29; 1; 0; 0] [0; 0]).
  - intros p [<- | []]. reflexivity.
  - simpl. lia.
Defined.

(** X16. The start and the goal of the demonstration are feasible for every
    obstacle field that the program can generate. *)
Theorem start_and_goal_feasible (ps : list vec) (u : vec) :
  (forall p : vec, In p ps -> length p = 2%nat) ->
  is_feasible (map obstacle_slot ps) ModelA.x u = true
  /\ is_feasible (map obstacle_slot ps) ModelA.goal u = true.
Proof.
  intros Hps.
  assert (Hfree : forall x : vec, (3 <= length x)%nat ->
            (forall p0 p1 : R,
               obstacle_slot [p0; p1] = [p0; p1; 1] ->
               4 < (x@[0] - p0) * (x@[0] - p0) + (x@[1] - p1) * (x@[1] - p1)) ->
            is_feasible (map obstacle_slot ps) x u = true).
  { intros x Hx Hfar. apply Bool.not_false_iff_true. intros H.
    apply generated_field in H; [| exact Hps | exact Hx].
    destruct H as (p & Hp & Hk & Hd).
    pose proof (Hps p Hp) as Hlen.
    destruct p as [| p0 [| p1 [| p2 t]]]; try discriminate Hlen.
    specialize (Hfar p0 p1 Hk).
    unfold norm in Hd. cbn [subtract zip_with map fold_right] in Hd.
    apply sqrt_le_sq in Hd; [lra |].
    rewrite Rplus_0_r. apply Rplus_le_le_0_compat; apply Rle_0_sqr. }
  split; apply Hfree; try (simpl; lia); intros p0 p1 Hk;
    destruct (obstacle_slot_cases p0 p1) as [(_ & Hg & Hs) | [_ Hn]];
    try contradiction; cbn [ModelA.x ModelA.goal item nth]; lra.
Qed.

Lemma start_and_goal_feasible_witness :
  is_feasible (map obstacle_slot [[29; 29]; [5; 5]]) ModelA.x [0; 0] = true.
Proof.
  apply (start_and_goal_feasible [[29; 29]; [5; 5]] [0; 0]).
  intros p [<- | [<- | []]]; reflexivity.
Defined.

End Feasibility_more.

(** ** More on the sampling heuristic *)

Section Sampling_more.

Lemma snap_item (goal : vec) (choices : list bool) :
  forall (k : nat) (xrand : vec) (j : nat),
    (k + j < length xrand)%nat ->
    (snap goal k choices xrand)@[k + j]
    = if nth j choices false then goal@[k + j] else xrand@[k + j].
Proof.
  induction choices as [| b bs IH]; intros k xrand j Hlen.
  - destruct j; reflexivity.
  - destruct j as [| j].
    + change (snap goal k (b :: bs) xrand)
        with (snap goal (S k) bs (if b then set_item xrand k goal@[k] else xrand)).
      rewrite Nat.add_0_r in *. rewrite snap_below by lia. cbn [nth].
      destruct b; [apply nth_set_nth_same; exact Hlen | reflexivity].
    + change (snap goal k (b :: bs) xrand)
        with (snap goal (S k) bs (if b then set_item xrand k goal@[k] else xrand)).
      cbn [nth]. rewrite Nat.add_succ_r in *.
      change (S (k + j)) with (S k + j)%nat.
      rewrite IH.
      * destruct (nth j bs false); [reflexivity |].
        destruct b; [| reflexivity].
        apply nth_set_nth_other. lia.
      * destruct b; [unfold set_item; rewrite set_nth_length |]; cbn; lia.
Qed.

Lemma greater_item (bias : vec) (r : R) (i : nat) :
  (i < length bias)%nat ->
  nth i (greater bias r) false = Rltb r bias@[i].
Proof.
  intros Hi. unfold greater.
  rewrite (nth_indep _ false (Rltb r 0)) by (rewrite length_map; exact Hi).
  apply map_nth.
Qed.

Variable sampling_bias : vec.
Variable planner : Planner.

Hypothesis goal_shape : length (planner_goal planner) = ModelA.nstates.
Hypothesis spans_shape : length (search_buffer_spans planner) = ModelA.nstates.
Hypothesis offsets_shape :
  length (search_buffer_offsets planner) = ModelA.nstates.

Lemma base_sample_length (rs : vec) :
  length rs = ModelA.nstates -> length (base_sample planner rs) = ModelA.nstates.
Proof.
  intros Hrs. unfold base_sample, add, multiply, times, abs, subtract.
  rewrite !zip_with_length, !length_map, !zip_with_length.
  rewrite goal_shape, spans_shape, offsets_shape, Hrs. reflexivity.
Qed.

Lemma base_sample_item (rs : vec) (i : nat) :
  length rs = ModelA.nstates -> (i < ModelA.nstates)%nat ->
  (base_sample planner rs)@[i]
  = (planner_goal planner)@[i]
    + (2 * Rabs ((planner_goal planner)@[i] - ModelA.x@[i])
       + (search_buffer_spans planner)@[i]) * (rs@[i] - 0.5)
    + (search_buffer_offsets planner)@[i].
Proof.
  intros Hrs Hi. unfold ModelA.nstates in *.
  remember (planner_goal planner) as g eqn:Eg.
  remember (search_buffer_spans planner) as sp eqn:Esp.
  remember (search_buffer_offsets planner) as off eqn:Eoff.
  unfold base_sample. rewrite <- Eg, <- Esp, <- Eoff.
  items g. items sp. items off. items rs.
  do 5 (destruct i as [| i]; [cbn; ring |]). lia.
Qed.

(** X17. Every channel of the sample other than the heading is decided by
    the one draw [r] that all channels share: it is the goal's value when
    [r] is below the bias of the channel, and the uniform draw around the
    goal otherwise. *)
Theorem xrand_gen_channels (rs : vec) (r n : R) (i : nat) :
  length rs = ModelA.nstates -> length sampling_bias = ModelA.nstates ->
  (i < ModelA.nstates)%nat -> i <> 2%nat ->
  (xrand_gen sampling_bias planner rs r n)@[i]
  = if Rltb r sampling_bias@[i]
    then (planner_goal planner)@[i]
    else (planner_goal planner)@[i]
         + (2 * Rabs ((planner_goal planner)@[i] - ModelA.x@[i])
            + (search_buffer_spans planner)@[i]) * (rs@[i] - 0.5)
         + (search_buffer_offsets planner)@[i].
Proof.
  intros Hrs Hb Hi H2.
  change (xrand_gen sampling_bias planner rs r n)
    with (set_item (snap (planner_goal planner) 0 (greater sampling_bias r)
                         (base_sample planner rs))
                   2 (arctan2 (subtract ModelA.goal (closest_node planner))@[1]
                              (subtract ModelA.goal (closest_node planner))@[0]
                      + deg2rad 30 * n)).
  unfold set_item, item at 1. rewrite nth_set_nth_other by congruence.
  pose proof (snap_item (planner_goal planner) (greater sampling_bias r) 0
                (base_sample planner rs) i) as H.
  cbn [Nat.add] in H. unfold item at 1 in H.
  rewrite H by (rewrite base_sample_length; assumption).
  rewrite greater_item by (rewrite Hb; exact Hi).
  rewrite base_sample_item by assumption. reflexivity.
Qed.

(** X18. The heading of the sample is the bearing from the closest tree node
    to the goal plus the noise, whatever the biases and the other draws are,
    and the sample has as many channels as the state. *)
Theorem xrand_gen_heading_bearing (rs : vec) (r n : R) :
  length rs = ModelA.nstates -> (2 <= length (closest_node planner))%nat ->
  (xrand_gen sampling_bias planner rs r n)@[2]
  = arctan2 (ModelA.goal@[1] - (closest_node planner)@[1])
            (ModelA.goal@[0] - (closest_node planner)@[0])
    + deg2rad 30 * n
  /\ length (xrand_gen sampling_bias planner rs r n) = ModelA.nstates.
Proof.
  intros Hrs Hc.
  change (xrand_gen sampling_bias planner rs r n)
    with (set_item (snap (planner_goal planner) 0 (greater sampling_bias r)
                         (base_sample planner rs))
                   2 (arctan2 (subtract ModelA.goal (closest_node planner))@[1]
                              (subtract ModelA.goal (closest_node planner))@[0]
                      + deg2rad 30 * n)).
  split.
  - unfold set_item, item at 1. rewrite nth_set_nth_same
      by (rewrite snap_length, base_sample_length by exact Hrs;
          unfold ModelA.nstates; lia).
    unfold subtract, item.
    rewrite !(nth_zip_with Rminus _ _ _ 0 0) by (cbn; lia).
    reflexivity.
  - unfold set_item. rewrite set_nth_length, snap_length.
    apply base_sample_length. exact Hrs.
Qed.

End Sampling_more.

Lemma xrand_gen_channels_witness :
  (xrand_gen [0.3; 0.3; 0; 0; 0] start_planner [0.2; 0.9; 0.5; 0.5; 0.5] 0.1 0)@[1]
  = if Rltb 0.1 [0.3; 0.3; 0; 0; 0]@[1]
    then (planner_goal start_planner)@[1]
    else (planner_goal start_planner)@[1]
         + (2 * Rabs ((planner_goal start_planner)@[1] - ModelA.x@[1])
            + (search_buffer_spans start_planner)@[1])
           * ([0.2; 0.9; 0.5; 0.5; 0.5]@[1] - 0.5)
         + (search_buffer_offsets start_planner)@[1].
Proof.
  apply (xrand_gen_channels [0.3; 0.3; 0; 0; 0] start_planner
           eq_refl eq_refl eq_refl [0.2; 0.9; 0.5; 0.5; 0.5] 0.1 0 1).
  - reflexivity.
  - reflexivity.
  - unfold ModelA.nstates. lia.
  - discriminate.
Defined.

Lemma xrand_gen_heading_bearing_witness :
  length (xrand_gen [0.3; 0.3; 0; 0; 0] start_planner
            [0.2; 0.9; 0.5; 0.5; 0.5] 0.1 0) = ModelA.nstates.
Proof.
  apply (xrand_gen_heading_bearing [0.3; 0.3; 0; 0; 0] start_planner
           eq_refl eq_refl eq_refl [0.2; 0.9; 0.5; 0.5; 0.5] 0.1 0).
  - reflexivity.
  - simpl. lia.
Defined.

(** ** More on Model B's dynamics *)

Section ModelB_more.

Lemma drag_items (v0 v1 v2 : R) :
  ModelB.drag [v0; v1; v2]
  = [if Rleb 0 v0 then ModelB.D_pos@[0] else ModelB.D_neg@[0];
     if Rleb 0 v1 then ModelB.D_pos@[1] else ModelB.D_neg@[1];
     if Rleb 0 v2 then ModelB.D_pos@[2] else ModelB.D_neg@[2]].
Proof.
  unfold ModelB.drag. cbn [enumerate length seq combine fold_left zeros repeat].
  destruct (Rleb 0 v0), (Rleb 0 v1), (Rleb 0 v2); reflexivity.
Qed.

Lemma D_B_values :
  ModelB.D_pos@[0] = ModelB.u_max@[0] / 1.1
  /\ ModelB.D_pos@[1] = ModelB.u_max@[1] / 0.45
  /\ ModelB.D_pos@[2] = ModelB.u_max@[2] / 0.2
  /\ ModelB.D_neg@[0] = ModelB.u_max@[0] / 0.68
  /\ ModelB.D_neg@[1] = ModelB.u_max@[1] / 0.45
  /\ ModelB.D_neg@[2] = ModelB.u_max@[2] / 0.2.
Proof.
  destruct u_max_B_bounds as ([H0 _] & H1 & H2).
  unfold ModelB.D_pos, ModelB.D_neg. cbn in *.
  repeat split;
    match goal with
    | |- Rabs ?e = ?rhs =>
        first [ apply Rabs_pos_eq; lra
              | replace e with (- rhs) by lra;
                rewrite Rabs_Ropp; apply Rabs_pos_eq; lra ]
    end.
Qed.

(** The step of Model B, item by item. *)
Lemma call_dynamics_items (x0 x1 x2 x3 x4 x5 u0 u1 u2 dt : R) :
  call_dynamics [x0; x1; x2; x3; x4; x5] [u0; u1; u2] dt
  = let d := ModelB.drag [x3; x4; x5] in
    [x0 + (cos x2 * x3 - sin x2 * x4) * dt;
     x1 + (sin x2 * x3 + cos x2 * x4) * dt;
     x2 + x5 * dt;
     x3 + 1 / ModelB.m * (saturated 0 u0 - d@[0] * x3) * dt;
     x4 + 1 / ModelB.m * (saturated 1 u1 - d@[1] * x4) * dt;
     x5 + 1 / ModelB.I * (saturated 2 u2 - d@[2] * x5) * dt].
Proof.
  rewrite call_dynamics_value. cbv zeta.
  change (skipn 3 [x0; x1; x2; x3; x4; x5]) with [x3; x4; x5].
  rewrite drag_items.
  set (d0 := if Rleb 0 x3 then _ else _).
  set (d1 := if Rleb 0 x4 then _ else _).
  set (d2 := if Rleb 0 x5 then _ else _).
  unfold saturated_from.
  cbn [length seq combine map fst snd item nth dotv inner multiply subtract
       zip_with fold_right app scale add ModelB.invM].
  repeat (f_equal; try ring).
Qed.

(** X19. The whole effect of a step of Model B on the arrays of its caller:
    the control array is left holding the saturated control, every other
    array (the state among them) is left as it was, and the state returned
    is the first-order step under the saturated control. *)
Theorem dynamics_B_store (x u : ref) (dt : R) (s : store) :
  x <> u ->
  let r := ModelB.dynamics x u dt s in
  snd r u = saturated_from 0 (s u)
  /\ (forall a : ref, a <> u -> snd r a = s a)
  /\ fst r = add (s x)
               (scale (dotv [[cos (s x)@[2]; - sin (s x)@[2]; 0];
                             [sin (s x)@[2]; cos (s x)@[2]; 0];
                             [0; 0; 1]] (skipn 3 (s x))
                       ++ multiply ModelB.invM
                            (subtract (saturated_from 0 (s u))
                               (multiply (ModelB.drag (skipn 3 (s x)))
                                         (skipn 3 (s x)))))
                      dt).
Proof.
  intros Hxu. cbv zeta.
  pose proof (dynamics_B_effect x u dt s Hxu) as H.
  destruct (ModelB.dynamics x u dt s) as [xnext s']. exact H.
Qed.

Lemma dynamics_B_store_witness :
  snd (ModelB.dynamics 0%nat 1%nat 0.03
         (store_of [[0; 0; 0; 1; 0; 0]; [900; -900; 0]])) 0%nat
  = [0; 0; 0; 1; 0; 0].
Proof.
  apply (dynamics_B_store 0%nat 1%nat 0.03
           (store_of [[0; 0; 0; 1; 0; 0]; [900; -900; 0]])); discriminate.
Defined.

Lemma saturated_facts (i : nat) (a : R) :
  (i < 3)%nat ->
  Rabs (saturated i a) <= ModelB.u_max@[i]
  /\ 0 <= a * saturated i a
  /\ (Rabs a <= ModelB.u_max@[i] -> saturated i a = a).
Proof.
  intros Hi.
  assert (Hpos : 0 < ModelB.u_max@[i]).
  { destruct u_max_B_bounds as ([H0 _] & H1 & H2).
    assert (E : i = 0%nat \/ i = 1%nat \/ i = 2%nat) by lia.
    destruct E as [-> | [-> | ->]]; assumption. }
  set (U := ModelB.u_max@[i]) in *. unfold saturated. fold U.
  destruct (Rltb_cases U (Rabs a)) as [[Hc ->] | [Hc ->]].
  - unfold sign.
    destruct (Rltb_cases a 0) as [[Ha ->] | [Ha ->]].
    + replace (U * -1) with (- U) by ring. rewrite Rabs_Ropp, Rabs_pos_eq by lra.
      split; [lra | split; [nra | intros; lra]].
    + destruct (Rltb_cases 0 a) as [[Ha' ->] | [Ha' ->]].
      * rewrite Rmult_1_r, Rabs_pos_eq by lra.
        split; [lra | split; [nra | intros; lra]].
      * assert (a = 0) by lra. subst a. rewrite Rabs_R0 in Hc. lra.
  - split; [exact Hc | split; [nra | reflexivity]].
Qed.

(** X20. After a step of Model B, each of the three items of the caller's
    control array is within the maximum of its axis, has the sign of the
    control that was passed in, and is the control that was passed in
    whenever that was within the maximum. *)
Theorem dynamics_B_control_within_max (x u : ref) (dt : R) (s : store)
        (i : nat) :
  x <> u -> (i < 3)%nat -> length (s u) = 3%nat ->
  let u' := snd (ModelB.dynamics x u dt s) u in
  Rabs u'@[i] <= ModelB.u_max@[i]
  /\ 0 <= (s u)@[i] * u'@[i]
  /\ (Rabs (s u)@[i] <= ModelB.u_max@[i] -> u'@[i] = (s u)@[i]).
Proof.
  intros Hxu Hi Hlen. cbv zeta.
  pose proof (dynamics_B_effect x u dt s Hxu) as H.
  destruct (ModelB.dynamics x u dt s) as [xnext s']. cbn [snd].
  destruct H as (-> & _ & _).
  remember (s u) as uv eqn:Euv. clear Euv. items uv.
  assert (E : i = 0%nat \/ i = 1%nat \/ i = 2%nat) by lia.
  destruct E as [-> | [-> | ->]]; cbn; apply saturated_facts; lia.
Qed.

Lemma dynamics_B_control_within_max_witness :
  Rabs (snd (ModelB.dynamics 0%nat 1%nat 0.03
               (store_of [[0; 0; 0; 0; 0; 0]; [1000; 0; -5000]])) 1%nat)@[2]
  <= ModelB.u_max@[2].
Proof.
  apply (dynamics_B_control_within_max 0%nat 1%nat 0.03
           (store_of [[0; 0; 0; 0; 0; 0]; [1000; 0; -5000]]) 2).
  - discriminate.
  - lia.
  - reflexivity.
Defined.

Lemma saturated_idem (i : nat) (a : R) :
  (i < 3)%nat -> saturated i (saturated i a) = saturated i a.
Proof.
  intros Hi. destruct (saturated_facts i a Hi) as (Hb & _ & _).
  apply saturated_facts; assumption.
Qed.

(** X21. A step of Model B depends on the control only through its
    saturation: calling it again with the control array that a first call
    left behind gives the same state as the first call. *)
Theorem call_dynamics_saturated (x u : vec) (dt : R) :
  length u = 3%nat ->
  let u' := snd (ModelB.dynamics 0%nat 1%nat dt (store_of [x; u])) 1%nat in
  call_dynamics x u' dt = call_dynamics x u dt.
Proof.
  intros Hu. cbv zeta.
  pose proof (dynamics_B_effect 0%nat 1%nat dt (store_of [x; u])) as H.
  destruct (ModelB.dynamics 0%nat 1%nat dt (store_of [x; u])) as [xnext s'].
  cbn [snd]. destruct H as (-> & _ & _); [discriminate |].
  change (store_of [x; u] 1%nat) with u.
  items u. rewrite !call_dynamics_value. cbv zeta.
  unfold saturated_from.
  cbn [length seq combine map fst snd].
  rewrite !saturated_idem by lia. reflexivity.
Qed.

Lemma call_dynamics_saturated_witness :
  call_dynamics [0; 0; 0; 0; 0; 0]
    (snd (ModelB.dynamics 0%nat 1%nat 0.03
            (store_of [[0; 0; 0; 0; 0; 0]; [1000; 0; -5000]])) 1%nat) 0.03
  = call_dynamics [0; 0; 0; 0; 0; 0] [1000; 0; -5000] 0.03.
Proof.
  apply (call_dynamics_saturated [0; 0; 0; 0; 0; 0] [1000; 0; -5000] 0.03).
  reflexivity.
Defined.

(** X22. At rest and without control, Model B stays where it is. *)
Theorem dynamics_B_rest (a b h dt : R) :
  call_dynamics [a; b; h; 0; 0; 0] [0; 0; 0] dt = [a; b; h; 0; 0; 0].
Proof. apply rest_step. Qed.

(** X23. The top speeds are the equilibria of full thrust in both
    directions: at the forward top speeds under the maximum control, and at
    the backward top speeds under the opposite of the maximum control, the
    three velocities stay as they are. *)
Theorem dynamics_B_top_speeds (a b h dt : R) :
  skipn 3 (call_dynamics ([a; b; h] ++ ModelB.vel_pos) ModelB.u_max dt)
  = ModelB.vel_pos
  /\ skipn 3 (call_dynamics ([a; b; h] ++ ModelB.vel_neg)
                            (times (-1) ModelB.u_max) dt)
     = ModelB.vel_neg.
Proof.
  destruct u_max_B_bounds as ([H0 _] & H1 & H2).
  destruct D_B_values as (P0 & P1 & P2 & N0 & N1 & N2).
  assert (Hsat : forall (i : nat) (k : R), (i < 3)%nat ->
            k = 1 \/ k = -1 ->
            saturated i (k * ModelB.u_max@[i]) = k * ModelB.u_max@[i]).
  { intros i k Hi Hk. apply saturated_facts; [exact Hi |].
    assert (Hpos : 0 < ModelB.u_max@[i]).
    { assert (E : i = 0%nat \/ i = 1%nat \/ i = 2%nat) by lia.
      destruct E as [-> | [-> | ->]]; assumption. }
    destruct Hk as [-> | ->].
    - rewrite Rmult_1_l, Rabs_pos_eq; lra.
    - replace (-1 * ModelB.u_max@[i]) with (- ModelB.u_max@[i]) by ring.
      rewrite Rabs_Ropp, Rabs_pos_eq; lra. }
  split.
  - change ([a; b; h] ++ ModelB.vel_pos) with [a; b; h; 1.1; 0.45; 0.2].
    change ModelB.u_max
      with [ModelB.u_max@[0]; ModelB.u_max@[1]; ModelB.u_max@[2]] at 1.
    rewrite call_dynamics_items. cbv zeta. rewrite drag_items.
    rewrite !Rleb_true by lra. cbn [skipn item nth].
    rewrite <- (Rmult_1_l ModelB.u_max@[0]) at 1.
    rewrite <- (Rmult_1_l ModelB.u_max@[1]) at 1.
    rewrite <- (Rmult_1_l ModelB.u_max@[2]) at 1.
    change (nth 0 ModelB.u_max 0) with ModelB.u_max@[0].
    change (nth 1 ModelB.u_max 0) with ModelB.u_max@[1].
    change (nth 2 ModelB.u_max 0) with ModelB.u_max@[2].
    rewrite !Hsat by (try lia; left; reflexivity).
    change (nth 0 ModelB.D_pos 0) with ModelB.D_pos@[0].
    change (nth 1 ModelB.D_pos 0) with ModelB.D_pos@[1].
    change (nth 2 ModelB.D_pos 0) with ModelB.D_pos@[2].
    rewrite P0, P1, P2. unfold ModelB.vel_pos.
    repeat (f_equal; try lra).
  - change ([a; b; h] ++ ModelB.vel_neg) with [a; b; h; -0.68; -0.45; -0.2].
    change (times (-1) ModelB.u_max)
      with [-1 * ModelB.u_max@[0]; -1 * ModelB.u_max@[1];
            -1 * ModelB.u_max@[2]].
    rewrite call_dynamics_items. cbv zeta. rewrite drag_items.
    rewrite !Rleb_false by lra. cbn [skipn item nth].
    change (nth 0 ModelB.u_max 0) with ModelB.u_max@[0].
    change (nth 1 ModelB.u_max 0) with ModelB.u_max@[1].
    change (nth 2 ModelB.u_max 0) with ModelB.u_max@[2].
    rewrite !Hsat by (try lia; right; reflexivity).
    change (nth 0 ModelB.D_neg 0) with ModelB.D_neg@[0].
    change (nth 1 ModelB.D_neg 0) with ModelB.D_neg@[1].
    change (nth 2 ModelB.D_neg 0) with ModelB.D_neg@[2].
    rewrite N0, N1, N2. unfold ModelB.vel_neg.
    repeat (f_equal; try lra).
Qed.

End ModelB_more.

Section ModelB_motion.

(** X24. Model B does back up: from rest, a negative thrust over a positive
    step of time gives a negative forward velocity. *)
Theorem dynamics_B_reverses (a b h u0 u1 u2 dt : R) :
  u0 < 0 -> 0 < dt ->
  (call_dynamics [a; b; h; 0; 0; 0] [u0; u1; u2] dt)@[3] < 0.
Proof.
  intros Hu Hdt. destruct u_max_B_bounds as ([H0 _] & _).
  rewrite call_dynamics_items. cbv zeta. cbn [item nth].
  assert (Hs : saturated 0 u0 < 0).
  { unfold saturated, sign.
    destruct (Rltb ModelB.u_max@[0] (Rabs u0)); [| exact Hu].
    rewrite (Rltb_true u0 0 Hu). lra. }
  unfold ModelB.m.
  assert (Hp : (saturated 0 u0 - nth 0 (ModelB.drag [0; 0; 0]) 0 * 0) * dt < 0)
    by nra.
  lra.
Qed.

Lemma dynamics_B_reverses_witness :
  (call_dynamics [0; 0; 0; 0; 0; 0] [-100; 0; 0] 0.03)@[3] < 0.
Proof.
  apply (dynamics_B_reverses 0 0 0 (-100) 0 0 0.03); lra.
Defined.

(** X25. Model B moves with its body velocity turned by the heading: the
    position moves by the length of the linear velocity times the step of
    time, and the heading turns by the yaw rate times the step. *)
Theorem dynamics_B_displacement (x u : vec) (dt : R) :
  length x = 6%nat -> length u = 3%nat ->
  let xnext := call_dynamics x u dt in
  let dx := xnext@[0] - x@[0] in
  let dy := xnext@[1] - x@[1] in
  dx * dx + dy * dy = (x@[3] * x@[3] + x@[4] * x@[4]) * (dt * dt)
  /\ xnext@[2] = x@[2] + x@[5] * dt.
Proof.
  intros Hx Hu. items x. items u. cbv zeta.
  rewrite call_dynamics_items. cbv zeta. cbn [item nth].
  pose proof (sin2_cos2 x2) as Hsc. unfold Rsqr in Hsc.
  split; [| reflexivity].
  set (c := cos x2) in *. set (s := sin x2) in *.
  transitivity ((s * s + c * c) * ((x3 * x3 + x4 * x4) * (dt * dt)));
    [ring | rewrite Hsc; ring].
Qed.

Lemma dynamics_B_displacement_witness :
  (call_dynamics [0; 0; 1; 1; 2; 3] [0; 0; 0] 0.03)@[2] = 1 + 3 * 0.03.
Proof.
  apply (dynamics_B_displacement [0; 0; 1; 1; 2; 3] [0; 0; 0] 0.03);
    reflexivity.
Defined.

End ModelB_motion.

(** ** More on the tracking loop *)

Section Tracking_more.

Variable get_state : R -> vec.
Variable get_effort : R -> vec.

Lemma simulation_row (x0 : vec) (ts : vec) (i : nat) :
  (i < length ts)%nat ->
  let r := simulation get_state get_effort x0 ts in
  let x := nth i (x_history (snd r)) [] in
  let xref := reference_state (get_state (nth i ts 0)) in
  let u := applied_control xref (reference_effort (get_effort (nth i ts 0))) x in
  row (snd r) i = (x, xref, ModelB.goal, u)
  /\ allocated (snd r) (length ts).
Proof.
  intros Hi. cbv zeta. unfold simulation, enumerate.
  pose proof (simulation_loop get_state get_effort ts 0 x0
                (preallocated (length ts)) (length ts)
                (preallocated_allocated _) ltac:(lia)) as H.
  cbv zeta in H. destruct H as (Hal & _ & _ & Hrows).
  specialize (Hrows i Hi). cbv zeta in Hrows. cbn [Nat.add] in Hrows.
  split; [apply Hrows | exact Hal].
Qed.

(** X26. The loop fills arrays of as many rows as there are times, records
    the goal in every row of the goal history, and leaves the start state as
    it is when there is no time to step through. *)
Theorem simulation_shapes (x0 : vec) (ts : vec) :
  let r := simulation get_state get_effort x0 ts in
  length (x_history (snd r)) = length ts
  /\ length (xref_history (snd r)) = length ts
  /\ length (goal_history (snd r)) = length ts
  /\ length (u_history (snd r)) = length ts
  /\ (forall i : nat, (i < length ts)%nat ->
        nth i (goal_history (snd r)) [] = ModelB.goal)
  /\ (ts = [] -> fst r = x0).
Proof.
  cbv zeta.
  assert (Hal : allocated (snd (simulation get_state get_effort x0 ts))
                          (length ts)).
  { unfold simulation, enumerate.
    apply (simulation_loop get_state get_effort ts 0 x0
             (preallocated (length ts)) (length ts)
             (preallocated_allocated _) ltac:(lia)). }
  destruct Hal as (H1 & H2 & H3 & H4).
  repeat (split; [assumption |]). split.
  - intros i Hi. destruct (simulation_row x0 ts i Hi) as [Hrow _].
    unfold row in Hrow. injection Hrow as _ Hg _. exact Hg.
  - intros ->. reflexivity.
Qed.

(** X27. What the loop records at a step does not depend on the plan
    after that step: the rows recorded over the times [ts] are the first
    rows recorded over any longer list of times that starts with [ts]. *)
Theorem simulation_prefix (x0 : vec) (ts ts' : vec) (i : nat) :
  (i < length ts)%nat ->
  row (snd (simulation get_state get_effort x0 (ts ++ ts'))) i
  = row (snd (simulation get_state get_effort x0 ts)) i.
Proof.
  intros Hi.
  assert (Hx : forall j : nat, (j < length ts)%nat ->
            nth j (x_history (snd (simulation get_state get_effort x0
                                     (ts ++ ts')))) []
            = nth j (x_history (snd (simulation get_state get_effort x0 ts)))
                  []).
  { intros j. induction j as [| j IH]; intros Hj.
    - pose proof (simulation_rows get_state get_effort x0 ts 0 Hj)
        as (H0 & _).
      pose proof (simulation_rows get_state get_effort x0 (ts ++ ts') 0
                    ltac:(rewrite length_app; lia)) as (H0' & _).
      rewrite H0, H0'. reflexivity.
    - assert (Hj' : (j < length ts)%nat) by lia. specialize (IH Hj').
      pose proof (simulation_rows get_state get_effort x0 ts j Hj')
        as (_ & _ & _ & Hn & _).
      pose proof (simulation_rows get_state get_effort x0 (ts ++ ts') j
                    ltac:(rewrite length_app; lia)) as (_ & _ & _ & Hn' & _).
      rewrite (Hn Hj), (Hn' ltac:(rewrite length_app; lia)).
      rewrite IH, app_nth1 by exact Hj'. reflexivity. }
  destruct (simulation_row x0 ts i Hi) as [-> _].
  destruct (simulation_row x0 (ts ++ ts') i ltac:(rewrite length_app; lia))
    as [-> _].
  rewrite (Hx i Hi), app_nth1 by exact Hi. reflexivity.
Qed.

End Tracking_more.

Lemma simulation_prefix_witness :
  row (snd (simulation (fun _ => [0; 0; 0; 1; 0]) (fun _ => [5; 1])
              ModelB.x ([0; 0.03] ++ [0.06]))) 1
  = row (snd (simulation (fun _ => [0; 0; 0; 1; 0]) (fun _ => [5; 1])
                ModelB.x [0; 0.03])) 1.
Proof.
  apply (simulation_prefix (fun _ => [0; 0; 0; 1; 0]) (fun _ => [5; 1])
           ModelB.x [0; 0.03] [0.06] 1).
  simpl. lia.
Defined.

(** ** The animation counter *)

Section Animation.





End Animation.
